(** * Let's watch together: the room synchronisation core of server.js

    A shallow embedding of the socket handlers of server.js (join-room,
    load-video, play, pause, seek, chat, request-sync, disconnect) with the
    Redis helpers getRoom, setRoom and ensureRoomExists they are built on.

    - The Redis instance is a finite map from keys to hashes (finite maps
      from field names to strings) with an optional time to live.
    - socket.io is modelled by what the handlers use of it: the room
      membership kept by the adapter (socket.join, fetchSockets, and the
      leaving of every room that precedes the 'disconnect' event), the
      per-socket socket.data, and emit with its three audiences.
    - A handler is a computation in a small state monad that can stop early
      (the handlers' bare [return], or an exception escaping the async
      function) and that collects the messages it emits.
    - Every handler runs to completion before the next event is taken: the
      interleaving of two handlers at their awaits is not modelled, and
      neither is a Redis command that fails.
    - A connection opens before it sends anything: socket.io then puts the
      socket in a room of its own, named by the socket's id, which it
      leaves with every other room when it closes.
    - Strings are byte strings; an id of eleven characters of
      [a-zA-Z0-9_-] has eleven bytes, and no other byte is one of them. *)

From Stdlib Require Import ZArith Lia Ascii String.
From Stdlib Require Import DecimalString DecimalZ.
From stdpp Require Import base option list strings gmap fin_maps.

Local Open Scope Z_scope.
Local Open Scope string_scope.

(** ** JavaScript built-ins used by the server *)

(** [String(n)] and [Number(s)] on integers: the decimal rendering. The only
    strings [Number] is applied to are fields that setRoom wrote with
    [String], so it is modelled on decimal literals. Any other string is
    sent to 0: JavaScript reads NaN or a fraction there, which the
    [x || 0] and [x || 1] of join-room and disconnect turn into a count
    again and the [=== 0] of setRoom does not; no handler writes such a
    field, and nothing below is claimed of a store that holds one. *)
Definition String_int (n : Z) : string :=
  NilEmpty.string_of_int (Z.to_int n).

Definition Number_int (s : string) : Z :=
  match NilEmpty.int_of_string s with
  | Some d => Z.of_int d
  | None => 0
  end.

(** The built-ins whose algorithms are not reproduced here: the numbers a
    playback position ranges over with their [String] and [Number]
    conversions, and JSON on arrays of strings. [number] stands for the
    finite JavaScript numbers compared with [===] (one zero); the laws are
    the ones ECMAScript gives: Number::toString never returns the empty
    string and [Number(String(x))] is [x]; JSON.parse inverts
    JSON.stringify, whose result is never empty. JSON.parse throws a
    SyntaxError on other input: [None]. *)
Class Builtins := {
  number : Type;
  number_eq_dec :: EqDecision number;
  zero : number;
  nonneg : number -> bool;
  String_num : number -> string;
  Number_str : string -> number;
  JSON_stringify : list string -> string;
  JSON_parse : string -> option (list string);
  nonneg_zero : nonneg zero = true;
  String_num_nonempty : forall x, String_num x <> "";
  Number_String : forall x, Number_str (String_num x) = x;
  JSON_stringify_nonempty : forall q, JSON_stringify q <> "";
  JSON_parse_stringify : forall q, JSON_parse (JSON_stringify q) = Some q
}.

(** ** An instance to run the handlers with

    Integer positions rendered in decimal, and JSON text for arrays of
    strings in which the quote and the backslash are escaped. *)
Module Json.

Definition quote : ascii := "034"%char.
Definition backslash : ascii := "092"%char.
Definition comma : ascii := ","%char.
Definition rbracket : ascii := "]"%char.
Definition lbracket : ascii := "["%char.

Fixpoint escape (s : string) : string :=
  match s with
  | EmptyString => EmptyString
  | String c s' =>
      if decide (c = quote \/ c = backslash)
      then String backslash (String c (escape s'))
      else String c (escape s')
  end.

(** The text that follows the first element's opening quote. *)
Fixpoint items (x : string) (xs : list string) : string :=
  escape x ++ String quote
    match xs with
    | [] => String rbracket EmptyString
    | y :: ys => String comma (String quote (items y ys))
    end.

Definition stringify (q : list string) : string :=
  match q with
  | [] => String lbracket (String rbracket EmptyString)
  | x :: xs => String lbracket (String quote (items x xs))
  end.

(** Reads from inside a string literal to the end of the array: the
    literal's contents and the elements after it. *)
Fixpoint in_string (s : string) : option (string * list string) :=
  match s with
  | EmptyString => None
  | String c s' =>
      if decide (c = quote) then
        match s' with
        | String e EmptyString =>
            if decide (e = rbracket) then Some (EmptyString, []) else None
        | String e (String c2 s'') =>
            if decide (e = comma /\ c2 = quote) then
              match in_string s'' with
              | Some (y, ys) => Some (EmptyString, y :: ys)
              | None => None
              end
            else None
        | EmptyString => None
        end
      else if decide (c = backslash) then
        match s' with
        | String d s'' =>
            if decide (d = quote \/ d = backslash) then
              match in_string s'' with
              | Some (x, xs) => Some (String d x, xs)
              | None => None
              end
            else None
        | EmptyString => None
        end
      else
        match in_string s' with
        | Some (x, xs) => Some (String c x, xs)
        | None => None
        end
  end.

Definition parse (s : string) : option (list string) :=
  match s with
  | String b (String c s') =>
      if decide (b = lbracket) then
        if decide (c = rbracket) then
          match s' with EmptyString => Some [] | _ => None end
        else if decide (c = quote) then
          match in_string s' with
          | Some (x, xs) => Some (x :: xs)
          | None => None
          end
        else None
      else None
  | _ => None
  end.

End Json.

(** ** Data *)

(** [a || b] on an optional string: absent and empty are falsy. *)
Definition truthy (v : option string) : bool :=
  match v with
  | Some (String _ _) => true
  | _ => false
  end.

Definition str_or (v : option string) (d : string) : string :=
  match v with
  | Some (String c s) => String c s
  | _ => d
  end.

(** [s || null] for a string [s]. *)
Definition or_null (s : string) : option string :=
  match s with
  | EmptyString => None
  | _ => Some s
  end.

(** A Redis key: the fields of its hash and, when one is set, its time to
    live in seconds. *)
Record entry := Entry {
  fields : gmap string string;
  ttl : option Z
}.

(** socket.data once join-room has filled it. *)
Record sockdata := SockData {
  data_name : string;
  data_roomId : string
}.

Inductive audience :=
| ToSocket (sid : string)                 (* socket.emit *)
| ToRoom (roomId : string)                (* io.to(roomId).emit *)
| ToRoomExcept (roomId sid : string).     (* socket.to(roomId).emit *)

Section Server.
Context `{B : Builtins}.

(** [Number(t || 0)] for an optional number [t]. *)
Definition num_or_0 (t : option number) : number :=
  match t with
  | Some x => if decide (x = zero) then zero else x
  | None => zero
  end.

(** [n || d] for an integer [n]. *)
Definition int_or (n d : Z) : Z := if decide (n = 0) then d else n.

(** The object getRoom returns and the handlers mutate. The member count
    is a whole number, which the handlers raise and lower by 1: a double
    does that exactly below 2^53, and the integers here stand for the
    counts in that range. *)
Record room := Room {
  videoId : string;
  time : number;
  playing : bool;
  membersCount : Z;
  moderatorId : string;
  queue : list string
}.

Inductive message :=
| MError (message : string)
| MUsers (count : Z)
| MRoomState (videoId : option string) (time : number) (playing : bool)
             (moderatorId : option string) (queue : list string)
| MLoadVideo (videoId : string)
| MPlay (time : number)
| MPause (time : number)
| MSeek (time : number)
| MChat (name text : string).

(** What the server holds between two events. [adapter] lists the sockets
    of each socket.io room in the order they joined, the room that every
    open connection has under its own id among them; [closed] holds the ids
    of the connections that have gone: the transport never reuses one. *)
Record world := World {
  redis : gmap string entry;
  adapter : gmap string (list string);
  data : gmap string sockdata;
  closed : gset string
}.

Definition packet : Type := audience * message.

(** ** Handlers as computations

    [None] as a result means that the handler has ended: it returned early
    or an exception left it. *)
Definition M (A : Type) : Type := world -> option A * world * list packet.

Definition ret {A} (a : A) : M A := fun w => (Some a, w, []).

Definition stop {A} : M A := fun w => (None, w, []).

Definition bind {A C} (m : M A) (k : A -> M C) : M C := fun w =>
  match m w with
  | (Some a, w1, o1) =>
      match k a w1 with
      | (r, w2, o2) => (r, w2, (o1 ++ o2)%list)
      end
  | (None, w1, o1) => (None, w1, o1)
  end.

Notation "'let*' x ':=' m 'in' k" := (bind m (fun x => k))
  (at level 10, x name, m at level 100, k at level 200).
Notation "m '>>' k" := (bind m (fun _ => k))
  (at level 100, k at level 200, right associativity).

Definition emit (to : audience) (m : message) : M unit :=
  fun w => (Some tt, w, [(to, m)]).

(** *** Redis commands *)

Definition redis_hgetall (key : string) : M (gmap string string) := fun w =>
  (Some (match redis w !! key with Some e => fields e | None => ∅ end), w, []).

Definition with_redis (w : world) (r : gmap string entry) : world :=
  World r (adapter w) (data w) (closed w).

(** HSET overwrites the given fields and keeps the others and the TTL. *)
Definition redis_hset (key : string) (payload : gmap string string) : M unit :=
  fun w =>
    let e := match redis w !! key with
             | Some e => Entry (payload ∪ fields e) (ttl e)
             | None => Entry payload None
             end in
    (Some tt, with_redis w (<[key := e]> (redis w)), []).

Definition redis_expire (key : string) (seconds : Z) : M unit := fun w =>
  (Some tt,
   with_redis w (alter (fun e => Entry (fields e) (Some seconds)) key (redis w)),
   []).

Definition redis_persist (key : string) : M unit := fun w =>
  (Some tt,
   with_redis w (alter (fun e => Entry (fields e) None) key (redis w)),
   []).

(** *** socket.io *)

Definition members (w : world) (roomId : string) : list string :=
  default [] (adapter w !! roomId).

(** socket.join(roomId): a room is a set, joining twice adds nothing. *)
Definition socket_join (sid roomId : string) : M unit := fun w =>
  let l := members w roomId in
  let l' := if decide (sid ∈ l) then l else (l ++ [sid])%list in
  (Some tt, World (redis w) (<[roomId := l']> (adapter w)) (data w) (closed w), []).

(** io.in(roomId).fetchSockets(), as the ids of the sockets: all that are
    in the room, whether join-room put them there or the room is their
    own. *)
Definition fetchSockets (roomId : string) : M (list string) := fun w =>
  (Some (members w roomId), w, []).

Definition socket_data (sid : string) : M (option sockdata) := fun w =>
  (Some (data w !! sid), w, []).

Definition set_socket_data (sid : string) (d : sockdata) : M unit := fun w =>
  (Some tt, World (redis w) (adapter w) (<[sid := d]> (data w)) (closed w), []).

(** What the transport does when a connection opens, before it hands the
    socket to io.on('connection'), which registers the handlers and changes
    nothing: the socket joins the room named by its own id. *)
Definition transport_open (sid : string) : M unit := socket_join sid sid.

(** What the transport does when a connection closes, before it fires
    'disconnect': the socket leaves every room. *)
Definition transport_close (sid : string) : M unit := fun w =>
  (Some tt,
   World (redis w) (filter (fun s => s <> sid) <$> adapter w) (data w)
         ({[sid]} ∪ closed w),
   []).

(** ** The helpers of server.js *)

Definition ROOM_PREFIX : string := "room:".

Definition lookup_or (h : gmap string string) (field d : string) : string :=
  str_or (h !! field) d.

(** [null] for a key with no field; the object with the parsed fields
    otherwise. JSON.parse is the one call that can throw. *)
Definition getRoom (roomId : string) : M (option room) :=
  let key := ROOM_PREFIX ++ roomId in
  let* h := redis_hgetall key in
  if decide (h = ∅) then ret None
  else
    let* q := (if truthy (h !! "queue")
               then match JSON_parse (lookup_or h "queue" "") with
                    | Some q => ret q
                    | None => stop
                    end
               else ret []) in
    ret (Some {|
      videoId := lookup_or h "videoId" "";
      time := if truthy (h !! "time")
              then Number_str (lookup_or h "time" "") else zero;
      playing := bool_decide (h !! "playing" = Some "true");
      membersCount := if truthy (h !! "membersCount")
                      then Number_int (lookup_or h "membersCount" "") else 0;
      moderatorId := lookup_or h "moderatorId" "";
      queue := q
    |}).

Definition payload_of (state : room) : gmap string string :=
  <["videoId" := str_or (Some (videoId state)) ""]>
  (<["time" := String_num (num_or_0 (Some (time state)))]>
  (<["playing" := if playing state then "true" else "false"]>
  (<["membersCount" := String_int (int_or (membersCount state) 0)]>
  (<["moderatorId" := str_or (Some (moderatorId state)) ""]>
  (<["queue" := JSON_stringify (queue state)]> ∅))))).

Definition setRoom (roomId : string) (state : room) : M unit :=
  let key := ROOM_PREFIX ++ roomId in
  redis_hset key (payload_of state) >>
  if decide (membersCount state = 0)
  then redis_expire key (60 * 60 * 24)
  else redis_persist key.

Definition ensureRoomExists (roomId creatorSocketId : string) : M room :=
  let* existing := getRoom roomId in
  match existing with
  | Some r => ret r
  | None =>
      let initial := Room "" zero false 0 creatorSocketId [] in
      setRoom roomId initial >>
      ret initial
  end.

Definition allowed_char (c : ascii) : bool :=
  let n := N_of_ascii c in
  ((97 <=? n) && (n <=? 122) || (65 <=? n) && (n <=? 90) ||
   (48 <=? n) && (n <=? 57) || (n =? 95) || (n =? 45))%N.

(** [typeof id === 'string' && /^[a-zA-Z0-9_-]{11}$/.test(id)]; a payload
    field that is not a string is [None]. *)
Definition isValidYouTubeId (id : option string) : bool :=
  match id with
  | Some s => (String.length s =? 11)%nat && forallb allowed_char (list_ascii_of_string s)
  | None => false
  end.

(** The object sent as 'room-state'. *)
Definition room_state (r : room) : message :=
  MRoomState (or_null (videoId r)) (num_or_0 (Some (time r))) (playing r)
             (or_null (moderatorId r)) (queue r).

(** [const roomId = socket.data.roomId; if (!roomId) return;] *)
Definition bound_room (sid : string) : M string :=
  let* d := socket_data sid in
  let roomId := data_roomId <$> d in
  if truthy roomId then ret (str_or roomId "") else stop.

(** [const room = await getRoom(roomId); if (!room) return;] *)
Definition existing_room (roomId : string) : M room :=
  let* r := getRoom roomId in
  match r with
  | Some r => ret r
  | None => stop
  end.

(** ** The socket handlers *)

Definition set_membersCount (r : room) (n : Z) : room :=
  Room (videoId r) (time r) (playing r) n (moderatorId r) (queue r).

Definition set_moderatorId (r : room) (m : string) : room :=
  Room (videoId r) (time r) (playing r) (membersCount r) m (queue r).

Definition set_video (r : room) (v : string) (t : number) (p : bool) : room :=
  Room v t p (membersCount r) (moderatorId r) (queue r).

Definition set_time (r : room) (t : number) : room :=
  Room (videoId r) t (playing r) (membersCount r) (moderatorId r) (queue r).

Definition set_playing (r : room) (p : bool) : room :=
  Room (videoId r) (time r) p (membersCount r) (moderatorId r) (queue r).

(** [rnd] is the value of [Math.floor(Math.random() * 9000)] drawn for the
    default name. *)
Definition on_join_room (sid : string) (roomId name : option string) (rnd : Z)
  : M unit :=
  if negb (truthy roomId) then
    emit (ToSocket sid) (MError "roomId required")
  else
    let roomId := str_or roomId "" in
    socket_join sid roomId >>
    set_socket_data sid
      (SockData (str_or name ("User" ++ String_int (rnd + 1000))) roomId) >>
    let* room := ensureRoomExists roomId sid in
    let room := set_membersCount room (int_or (membersCount room) 0 + 1) in
    let room := if negb (truthy (Some (moderatorId room)))
                then set_moderatorId room sid else room in
    setRoom roomId room >>
    emit (ToRoom roomId) (MUsers (membersCount room)) >>
    emit (ToSocket sid) (room_state room).

Definition on_load_video (sid : string) (videoId : option string) : M unit :=
  let* roomId := bound_room sid in
  let* room := existing_room roomId in
  if truthy (Some (moderatorId room)) && negb (bool_decide (sid = moderatorId room))
  then emit (ToSocket sid) (MError "Only moderator can load video")
  else if negb (isValidYouTubeId videoId)
  then emit (ToSocket sid) (MError "Invalid YouTube id")
  else
    let videoId := default "" videoId in
    let room := set_video room videoId zero false in
    setRoom roomId room >>
    emit (ToRoom roomId) (MLoadVideo videoId).

Definition on_play (sid : string) (t : option number) : M unit :=
  let* roomId := bound_room sid in
  let* room := existing_room roomId in
  let room := set_playing (set_time room (num_or_0 t)) true in
  setRoom roomId room >>
  emit (ToRoomExcept roomId sid) (MPlay (time room)).

Definition on_pause (sid : string) (t : option number) : M unit :=
  let* roomId := bound_room sid in
  let* room := existing_room roomId in
  let room := set_playing (set_time room (num_or_0 t)) false in
  setRoom roomId room >>
  emit (ToRoomExcept roomId sid) (MPause (time room)).

Definition on_seek (sid : string) (t : option number) : M unit :=
  let* roomId := bound_room sid in
  let* room := existing_room roomId in
  let room := set_time room (num_or_0 t) in
  setRoom roomId room >>
  emit (ToRoomExcept roomId sid) (MSeek (time room)).

Definition on_chat (sid : string) (text : option string) : M unit :=
  let* d := socket_data sid in
  let roomId := data_roomId <$> d in
  if negb (truthy roomId) || negb (truthy text) then stop
  else
    let name := str_or (data_name <$> d) "Anon" in
    emit (ToRoom (str_or roomId "")) (MChat name (str_or text "")).

Definition on_request_sync (sid : string) : M unit :=
  let* roomId := bound_room sid in
  let* room := existing_room roomId in
  emit (ToSocket sid) (room_state room).

Definition on_disconnect (sid : string) : M unit :=
  let* roomId := bound_room sid in
  let* room := existing_room roomId in
  let room :=
    set_membersCount room (Z.max 0 (int_or (membersCount room) 1 - 1)) in
  let* room :=
    (if bool_decide (moderatorId room = sid) then
       let* sockets := fetchSockets roomId in
       ret (set_moderatorId room (hd "" sockets))
     else ret room) in
  setRoom roomId room >>
  if decide (membersCount room = 0) then ret tt
  else emit (ToRoom roomId) (MUsers (membersCount room)).

(** ** Events *)

Inductive event :=
| JoinRoom (roomId name : option string) (rnd : Z)
| LoadVideo (videoId : option string)
| Play (time : option number)
| Pause (time : option number)
| Seek (time : option number)
| Chat (text : option string)
| RequestSync
| Disconnect.

Definition handle (sid : string) (e : event) : M unit :=
  match e with
  | JoinRoom roomId name rnd => on_join_room sid roomId name rnd
  | LoadVideo videoId => on_load_video sid videoId
  | Play t => on_play sid t
  | Pause t => on_pause sid t
  | Seek t => on_seek sid t
  | Chat text => on_chat sid text
  | RequestSync => on_request_sync sid
  | Disconnect => transport_close sid >> on_disconnect sid
  end.

(** What happens to the server: a socket's event arrives, Redis drops a
    key whose time to live has run out, or a connection opens. *)
Inductive label :=
| Recv (sid : string) (e : event)
| Expire (key : string)
| Connect (sid : string).

Definition expire_key (key : string) (w : world) : world :=
  match redis w !! key with
  | Some (Entry _ (Some _)) => with_redis w (delete key (redis w))
  | _ => w
  end.

Definition step (w : world) (l : label) : world * list packet :=
  match l with
  | Recv sid e => let '(_, w', out) := handle sid e w in (w', out)
  | Expire key => (expire_key key w, [])
  | Connect sid => let '(_, w', out) := transport_open sid w in (w', out)
  end.

Definition next (w : world) (l : label) : world := fst (step w l).

Definition run (w : world) (ls : list label) : world := foldl next w ls.

(** The server as it starts: an empty store and no connection. *)
Definition init : world := World ∅ ∅ ∅ ∅.

(** The object getRoom hands to a handler in [w]: [None] when it throws. *)
Definition room_at (w : world) (roomId : string) : option (option room) :=
  (getRoom roomId w).1.1.

End Server.

(** ** The client, room.js

    The functions of the page that work on strings: the id the load button
    takes out of what the user typed, and the HTML of a chat line. *)
Module Client.

(** [/^[a-zA-Z0-9_-]{11}$/.test(s)] *)
Definition is_id (s : string) : bool :=
  (String.length s =? 11)%nat && forallb allowed_char (list_ascii_of_string s).

(** [s] without the prefix [p], when it starts with it. *)
Fixpoint strip (p s : string) : option string :=
  match p, s with
  | EmptyString, _ => Some s
  | String a p', String b s' => if decide (a = b) then strip p' s' else None
  | String _ _, EmptyString => None
  end.

(** [([a-zA-Z0-9_-]{11})] at the head of [s]: the group it captures. *)
Definition eleven (s : string) : option string :=
  let id := substring 0 11 s in
  if is_id id then Some id else None.

(** The alternatives of [(?:v=|\/v\/|\.be\/|embed\/)], in their order. *)
Definition prefixes : list string := ["v="; "/v/"; ".be/"; "embed/"].

(** The pattern at the head of [s]: the first alternative that is followed
    by an id. *)
Fixpoint match_here (ps : list string) (s : string) : option string :=
  match ps with
  | [] => None
  | p :: ps' =>
      match strip p s with
      | Some rest =>
          match eleven rest with
          | Some id => Some id
          | None => match_here ps' s
          end
      | None => match_here ps' s
      end
  end.

(** [urlOrId.match(/(?:v=|\/v\/|\.be\/|embed\/)([a-zA-Z0-9_-]{11})/)]: the
    group of the leftmost match. *)
Fixpoint search (s : string) : option string :=
  match s with
  | EmptyString => None
  | String _ s' =>
      match match_here prefixes s with
      | Some id => Some id
      | None => search s'
      end
  end.

Definition extractYouTubeID (urlOrId : string) : option string :=
  match urlOrId with
  | EmptyString => None
  | _ => if is_id urlOrId then Some urlOrId else search urlOrId
  end.

(** The table of escapeHtml. *)
Definition entity (c : ascii) : option string :=
  if decide (c = "&"%char) then Some "&amp;"
  else if decide (c = "<"%char) then Some "&lt;"
  else if decide (c = ">"%char) then Some "&gt;"
  else if decide (c = "034"%char) then Some "&quot;"
  else if decide (c = "'"%char) then Some "&#39;"
  else None.

(** [String(s).replace(re, m => table[m])], where [re] is the global
    pattern of the five characters of the table. *)
Fixpoint escapeHtml (s : string) : string :=
  match s with
  | EmptyString => EmptyString
  | String c s' =>
      match entity c with
      | Some e => e ++ escapeHtml s'
      | None => String c (escapeHtml s')
      end
  end.

(** The innerHTML addChat gives a chat line. *)
Definition chat_line (from text : string) : string :=
  "<b>" ++ escapeHtml from ++ ":</b> " ++ escapeHtml text.

(** What the load button sends for the trimmed content of the input:
    nothing (an alert) when no id is found in it. *)
Definition load_click `{B : Builtins} (input : string) : option event :=
  match extractYouTubeID input with
  | Some id => Some (LoadVideo (Some id))
  | None => None
  end.

End Client.

(** * Properties *)

(** ** The built-ins on integers *)

Lemma Number_String_int (n : Z) : Number_int (String_int n) = n.
Proof.
  unfold Number_int, String_int.
  rewrite NilEmpty.isi. apply DecimalZ.of_to.
Qed.

Lemma String_int_nonempty (n : Z) : String_int n <> "".
Proof.
  intros E. pose proof (Number_String_int n) as R.
  rewrite E in R. cbv in R. subst n. discriminate E.
Qed.

Module JsonFacts.
Import Json.

Lemma in_string_escape (x t : string) (r : list string) :
  in_string (String quote t) = Some (EmptyString, r) ->
  in_string (escape x ++ String quote t) = Some (x, r).
Proof.
  intros Ht. induction x as [|c x IHx]; [exact Ht|].
  cbn [escape].
  destruct (decide (c = quote \/ c = backslash)) as [Hc|Hc].
  - change (in_string (String backslash (String c (escape x ++ String quote t)))
            = Some (String c x, r)).
    cbn [in_string].
    rewrite (decide_False (P := backslash = quote)) by discriminate.
    rewrite (decide_True (P := backslash = backslash)) by reflexivity.
    rewrite (decide_True (P := c = quote \/ c = backslash)) by exact Hc.
    rewrite IHx. reflexivity.
  - change (in_string (String c (escape x ++ String quote t))
            = Some (String c x, r)).
    cbn [in_string].
    rewrite (decide_False (P := c = quote)) by tauto.
    rewrite (decide_False (P := c = backslash)) by tauto.
    rewrite IHx. reflexivity.
Qed.

Lemma in_string_items (x : string) (xs : list string) :
  in_string (items x xs) = Some (x, xs).
Proof.
  revert x. induction xs as [|y ys IH]; intros x; cbn [items].
  - apply in_string_escape. reflexivity.
  - apply in_string_escape. cbn [in_string].
    rewrite (decide_True (P := quote = quote)) by reflexivity.
    rewrite (decide_True (P := comma = comma /\ quote = quote))
      by (split; reflexivity).
    rewrite IH. reflexivity.
Qed.

Lemma parse_stringify (q : list string) : parse (stringify q) = Some q.
Proof.
  destruct q as [|x xs]; [reflexivity|].
  unfold stringify, parse.
  rewrite decide_True by reflexivity.
  rewrite decide_False by discriminate.
  rewrite decide_True by reflexivity.
  rewrite in_string_items. reflexivity.
Qed.

Lemma stringify_nonempty (q : list string) : stringify q <> "".
Proof. destruct q; discriminate. Qed.

End JsonFacts.

(** Integer positions and the JSON text of [Json]. *)
Definition int_builtins : Builtins := {|
  number := Z;
  number_eq_dec := Z.eq_dec;
  zero := 0;
  nonneg := fun x => (0 <=? x)%Z;
  String_num := String_int;
  Number_str := Number_int;
  JSON_stringify := Json.stringify;
  JSON_parse := Json.parse;
  nonneg_zero := eq_refl;
  String_num_nonempty := String_int_nonempty;
  Number_String := Number_String_int;
  JSON_stringify_nonempty := JsonFacts.stringify_nonempty;
  JSON_parse_stringify := JsonFacts.parse_stringify
|}.

Example String_int_0 : String_int 0 = "0".
Proof. reflexivity. Qed.

Example String_int_day : String_int (60 * 60 * 24) = "86400".
Proof. reflexivity. Qed.

Example String_int_neg : String_int (-5) = "-5".
Proof. reflexivity. Qed.

Example Number_int_12 : Number_int "12" = 12.
Proof. reflexivity. Qed.

Example stringify_empty : Json.stringify [] = "[]".
Proof. reflexivity. Qed.

Example stringify_two :
  String.length (Json.stringify ["dQw4w9WgXcQ"; "a\b"]) = 22%nat
  /\ Json.parse (Json.stringify ["dQw4w9WgXcQ"; "a\b"])
     = Some ["dQw4w9WgXcQ"; "a\b"].
Proof. split; reflexivity. Qed.

Example parse_garbage : Json.parse "[oops" = None.
Proof. reflexivity. Qed.

(** ** The store *)

Section Store.
Context `{B : Builtins}.
Implicit Types (w : world) (st : room) (roomId sid : string).
Implicit Types (h : gmap string string).

Lemma str_or_Some (s d : string) : s <> "" -> str_or (Some s) d = s.
Proof. destruct s; [congruence | reflexivity]. Qed.

Lemma str_or_same (s : string) : str_or (Some s) "" = s.
Proof. destruct s; reflexivity. Qed.

Lemma truthy_Some (s : string) : s <> "" -> truthy (Some s) = true.
Proof. destruct s; [congruence | reflexivity]. Qed.

Lemma truthy_spec (v : option string) :
  truthy v = true <-> exists s, v = Some s /\ s <> "".
Proof.
  destruct v as [[|c s]|]; cbn; split; intros H; try discriminate H;
    try (destruct H as (s' & E & N); simplify_eq; congruence);
    try reflexivity.
  eexists; split; [reflexivity | discriminate].
Qed.

Lemma num_or_0_Some (x : number) : num_or_0 (Some x) = x.
Proof. unfold num_or_0. destruct (decide (x = zero)) as [->|]; reflexivity. Qed.

Lemma int_or_0 (n : Z) : int_or n 0 = n.
Proof. unfold int_or. destruct (decide (n = 0)); congruence. Qed.

Lemma key_inj roomId roomId' :
  ROOM_PREFIX ++ roomId = ROOM_PREFIX ++ roomId' -> roomId = roomId'.
Proof. unfold ROOM_PREFIX. cbn. intros [= E]. exact E. Qed.

(** The fields setRoom writes, as getRoom finds them. *)
Lemma payload_lookup st :
  payload_of st !! "videoId" = Some (videoId st) /\
  payload_of st !! "time" = Some (String_num (time st)) /\
  payload_of st !! "playing" = Some (if playing st then "true" else "false") /\
  payload_of st !! "membersCount" = Some (String_int (membersCount st)) /\
  payload_of st !! "moderatorId" = Some (moderatorId st) /\
  payload_of st !! "queue" = Some (JSON_stringify (queue st)).
Proof.
  unfold payload_of. rewrite !str_or_same, num_or_0_Some, int_or_0.
  repeat split; rewrite ?lookup_insert_ne by done; apply lookup_insert_eq.
Qed.

Lemma payload_fields st h :
  let p := payload_of st ∪ h in
  p <> ∅ /\
  lookup_or p "videoId" "" = videoId st /\
  p !! "time" = Some (String_num (time st)) /\
  p !! "playing" = Some (if playing st then "true" else "false") /\
  p !! "membersCount" = Some (String_int (membersCount st)) /\
  lookup_or p "moderatorId" "" = moderatorId st /\
  p !! "queue" = Some (JSON_stringify (queue st)).
Proof.
  intros p. destruct (payload_lookup st) as (Hv & Ht & Hp & Hc & Hm & Hq).
  assert (L : forall f v, payload_of st !! f = Some v -> p !! f = Some v)
    by (intros f v; apply lookup_union_Some_l).
  apply L in Hv, Ht, Hp, Hc, Hm, Hq. unfold lookup_or.
  rewrite Hv, Hm, !str_or_same. repeat split; try assumption.
  intros E. rewrite E, lookup_empty in Hq. discriminate Hq.
Qed.

(** The world setRoom leaves. *)
Definition put_room w roomId st : world :=
  (setRoom roomId st w).1.2.

Definition old_fields w (key : string) : gmap string string :=
  match redis w !! key with Some e => fields e | None => ∅ end.

Lemma setRoom_run roomId st w :
  setRoom roomId st w = (Some tt, put_room w roomId st, []).
Proof.
  unfold put_room, setRoom, bind, redis_hset.
  destruct (decide (membersCount st = 0)); reflexivity.
Qed.

Lemma redis_put_room w roomId st :
  redis (put_room w roomId st) =
  <[ROOM_PREFIX ++ roomId :=
      Entry (payload_of st ∪ old_fields w (ROOM_PREFIX ++ roomId))
            (if decide (membersCount st = 0) then Some (60 * 60 * 24) else None)]>
    (redis w).
Proof.
  unfold put_room, setRoom, bind, redis_hset, old_fields.
  assert (U : payload_of st ∪ ∅ = payload_of st) by apply (right_id ∅ (∪)).
  destruct (decide (membersCount st = 0));
    destruct (redis w !! (ROOM_PREFIX ++ roomId)) as [old|];
    cbn; rewrite alter_insert_eq, ?U; reflexivity.
Qed.

Lemma adapter_put_room w roomId st : adapter (put_room w roomId st) = adapter w.
Proof.
  unfold put_room, setRoom, bind, redis_hset.
  destruct (decide (membersCount st = 0)); reflexivity.
Qed.

Lemma data_put_room w roomId st : data (put_room w roomId st) = data w.
Proof.
  unfold put_room, setRoom, bind, redis_hset.
  destruct (decide (membersCount st = 0)); reflexivity.
Qed.

Lemma closed_put_room w roomId st : closed (put_room w roomId st) = closed w.
Proof.
  unfold put_room, setRoom, bind, redis_hset.
  destruct (decide (membersCount st = 0)); reflexivity.
Qed.

Lemma members_put_room w roomId st roomId' :
  members (put_room w roomId st) roomId' = members w roomId'.
Proof. unfold members. by rewrite adapter_put_room. Qed.

Lemma getRoom_run roomId w : getRoom roomId w = (room_at w roomId, w, []).
Proof.
  unfold room_at, getRoom, bind, redis_hgetall.
  repeat (case_match; simplify_eq/=; try reflexivity);
    unfold ret, stop in *; simplify_eq/=; reflexivity.
Qed.

(** getRoom reads one key. *)
Lemma room_at_ext w w' roomId :
  redis w !! (ROOM_PREFIX ++ roomId) = redis w' !! (ROOM_PREFIX ++ roomId) ->
  room_at w roomId = room_at w' roomId.
Proof.
  intros E. unfold room_at, getRoom, bind, redis_hgetall. rewrite E.
  repeat (case_match; simplify_eq/=; try reflexivity);
    unfold ret, stop in *; simplify_eq/=; reflexivity.
Qed.

Lemma room_at_fields w roomId st h t :
  redis w !! (ROOM_PREFIX ++ roomId) = Some (Entry (payload_of st ∪ h) t) ->
  room_at w roomId = Some (Some st).
Proof.
  intros E. unfold room_at, getRoom, bind, redis_hgetall. rewrite E. cbn [fields].
  destruct (payload_fields st h) as (Hne & Hv & Ht & Hp & Hc & Hm & Hq).
  rewrite decide_False by exact Hne.
  unfold lookup_or in *. rewrite Hv, Hm, Ht, Hp, Hc, Hq.
  rewrite !truthy_Some
    by auto using String_num_nonempty, String_int_nonempty, JSON_stringify_nonempty.
  rewrite !str_or_Some
    by auto using String_num_nonempty, String_int_nonempty, JSON_stringify_nonempty.
  rewrite JSON_parse_stringify, Number_String, Number_String_int. cbn.
  destruct st as [v tm [] c m q]; cbn; reflexivity.
Qed.

Lemma room_at_put_same w roomId st :
  room_at (put_room w roomId st) roomId = Some (Some st).
Proof.
  eapply room_at_fields. rewrite redis_put_room. apply lookup_insert_eq.
Qed.

Lemma room_at_put_other w roomId st roomId' :
  roomId' <> roomId ->
  room_at (put_room w roomId st) roomId' = room_at w roomId'.
Proof.
  intros N. apply room_at_ext. rewrite redis_put_room.
  apply lookup_insert_ne. intros E. apply N. symmetry. by apply key_inj.
Qed.

Lemma put_room_unfold w roomId st :
  put_room w roomId st =
  World (<[ROOM_PREFIX ++ roomId :=
            Entry (payload_of st ∪ old_fields w (ROOM_PREFIX ++ roomId))
                  (if decide (membersCount st = 0)
                   then Some (60 * 60 * 24) else None)]> (redis w))
        (adapter w) (data w) (closed w).
Proof.
  rewrite <- redis_put_room, <- (adapter_put_room w roomId st),
    <- (data_put_room w roomId st), <- (closed_put_room w roomId st).
  by destruct (put_room w roomId st).
Qed.

(** Writing the same object twice is writing it once. *)
Lemma put_room_twice w roomId st :
  put_room (put_room w roomId st) roomId st = put_room w roomId st.
Proof.
  rewrite (put_room_unfold (put_room w roomId st)).
  rewrite adapter_put_room, data_put_room, closed_put_room.
  unfold old_fields at 1. rewrite redis_put_room, lookup_insert_eq.
  cbn [fields]. rewrite insert_insert_eq.
  rewrite (assoc_L (∪)), (idemp_L (∪)).
  symmetry. apply put_room_unfold.
Qed.

End Store.

(** ** What each handler does *)

Section Handlers.
Context `{B : Builtins}.
Implicit Types (w : world) (st r : room) (roomId sid : string).

(** The room a socket is bound to, when there is one. *)
Definition binding w sid : option string :=
  match data w !! sid with
  | Some d => or_null (data_roomId d)
  | None => None
  end.

(** The room object a handler goes on with. *)
Definition found w roomId : option room :=
  match room_at w roomId with
  | Some (Some r) => Some r
  | _ => None
  end.

Lemma bound_room_run sid w : bound_room sid w = (binding w sid, w, []).
Proof.
  unfold bound_room, binding, bind, socket_data, ret, stop.
  destruct (data w !! sid) as [[nm [|c s]]|]; reflexivity.
Qed.

Lemma existing_room_run roomId w :
  existing_room roomId w = (found w roomId, w, []).
Proof.
  unfold existing_room, found, bind. rewrite getRoom_run.
  destruct (room_at w roomId) as [[r|]|]; reflexivity.
Qed.

Ltac run_handler :=
  repeat first
    [ rewrite bound_room_run
    | rewrite existing_room_run
    | rewrite setRoom_run
    | rewrite getRoom_run
    | progress unfold bind, emit, ret, stop
    | progress cbn beta iota ].

Lemma on_play_run sid t w :
  on_play sid t w =
  match binding w sid with
  | Some roomId =>
      match found w roomId with
      | Some r =>
          (Some tt,
           put_room w roomId (set_playing (set_time r (num_or_0 t)) true),
           [(ToRoomExcept roomId sid, MPlay (num_or_0 t))])
      | None => (None, w, [])
      end
  | None => (None, w, [])
  end.
Proof.
  unfold on_play. run_handler.
  destruct (binding w sid) as [roomId|]; [|reflexivity]. run_handler.
  destruct (found w roomId) as [r|]; [|reflexivity]. run_handler.
  reflexivity.
Qed.

Lemma on_pause_run sid t w :
  on_pause sid t w =
  match binding w sid with
  | Some roomId =>
      match found w roomId with
      | Some r =>
          (Some tt,
           put_room w roomId (set_playing (set_time r (num_or_0 t)) false),
           [(ToRoomExcept roomId sid, MPause (num_or_0 t))])
      | None => (None, w, [])
      end
  | None => (None, w, [])
  end.
Proof.
  unfold on_pause. run_handler.
  destruct (binding w sid) as [roomId|]; [|reflexivity]. run_handler.
  destruct (found w roomId) as [r|]; [|reflexivity]. run_handler.
  reflexivity.
Qed.

Lemma on_seek_run sid t w :
  on_seek sid t w =
  match binding w sid with
  | Some roomId =>
      match found w roomId with
      | Some r =>
          (Some tt, put_room w roomId (set_time r (num_or_0 t)),
           [(ToRoomExcept roomId sid, MSeek (num_or_0 t))])
      | None => (None, w, [])
      end
  | None => (None, w, [])
  end.
Proof.
  unfold on_seek. run_handler.
  destruct (binding w sid) as [roomId|]; [|reflexivity]. run_handler.
  destruct (found w roomId) as [r|]; [|reflexivity]. run_handler.
  reflexivity.
Qed.

(** The two refusals of load-video, in the order the handler tries them. *)
Definition load_refusal sid (v : option string) r : option string :=
  if truthy (Some (moderatorId r)) && negb (bool_decide (sid = moderatorId r))
  then Some "Only moderator can load video"
  else if negb (isValidYouTubeId v) then Some "Invalid YouTube id"
  else None.

Lemma on_load_video_run sid v w :
  on_load_video sid v w =
  match binding w sid with
  | Some roomId =>
      match found w roomId with
      | Some r =>
          match load_refusal sid v r with
          | Some msg => (Some tt, w, [(ToSocket sid, MError msg)])
          | None =>
              (Some tt, put_room w roomId (set_video r (default "" v) zero false),
               [(ToRoom roomId, MLoadVideo (default "" v))])
          end
      | None => (None, w, [])
      end
  | None => (None, w, [])
  end.
Proof.
  unfold on_load_video, load_refusal. run_handler.
  destruct (binding w sid) as [roomId|]; [|reflexivity]. run_handler.
  destruct (found w roomId) as [r|]; [|reflexivity]. run_handler.
  destruct (truthy (Some (moderatorId r)) && _); [reflexivity|].
  destruct (negb (isValidYouTubeId v)); [reflexivity|]. run_handler.
  reflexivity.
Qed.

Lemma on_request_sync_run sid w :
  on_request_sync sid w =
  match binding w sid with
  | Some roomId =>
      match found w roomId with
      | Some r => (Some tt, w, [(ToSocket sid, room_state r)])
      | None => (None, w, [])
      end
  | None => (None, w, [])
  end.
Proof.
  unfold on_request_sync. run_handler.
  destruct (binding w sid) as [roomId|]; [|reflexivity]. run_handler.
  destruct (found w roomId) as [r|]; reflexivity.
Qed.

Lemma on_chat_world sid text w : (on_chat sid text w).1.2 = w.
Proof.
  unfold on_chat, bind, socket_data, emit, stop. cbn beta iota.
  destruct (negb (truthy (data_roomId <$> data w !! sid)) || negb (truthy text));
    reflexivity.
Qed.

(** The world once the socket has joined the socket.io room and filled
    socket.data. *)
Definition joined w sid roomId (name : string) : world :=
  World (redis w)
        (<[roomId := if decide (sid ∈ members w roomId) then members w roomId
                     else (members w roomId ++ [sid])%list]> (adapter w))
        (<[sid := SockData name roomId]> (data w))
        (closed w).

Definition initial_room sid : room := Room "" zero false 0 sid [].

(** The member count and the moderator after a join. *)
Definition admitted r sid : room :=
  let r := set_membersCount r (int_or (membersCount r) 0 + 1) in
  if negb (truthy (Some (moderatorId r))) then set_moderatorId r sid else r.

Lemma room_at_joined w sid roomId name roomId' :
  room_at (joined w sid roomId name) roomId' = room_at w roomId'.
Proof. by apply room_at_ext. Qed.

Lemma on_join_room_run sid roomId name rnd w :
  roomId <> "" ->
  let nm := str_or name ("User" ++ String_int (rnd + 1000)) in
  let w1 := joined w sid roomId nm in
  on_join_room sid (Some roomId) name rnd w =
  match room_at w roomId with
  | None => (None, w1, [])
  | Some (Some r) =>
      (Some tt, put_room w1 roomId (admitted r sid),
       [(ToRoom roomId, MUsers (membersCount (admitted r sid)));
        (ToSocket sid, room_state (admitted r sid))])
  | Some None =>
      let r := initial_room sid in
      (Some tt, put_room (put_room w1 roomId r) roomId (admitted r sid),
       [(ToRoom roomId, MUsers (membersCount (admitted r sid)));
        (ToSocket sid, room_state (admitted r sid))])
  end.
Proof.
  intros Hr nm w1. unfold on_join_room.
  rewrite truthy_Some by exact Hr. rewrite str_or_Some by exact Hr.
  cbn [negb]. unfold ensureRoomExists, socket_join, set_socket_data.
  run_handler. fold nm. cbn [redis adapter data closed].
  change (World (redis w) _ _ (closed w)) with w1.
  assert (E : room_at w1 roomId = room_at w roomId) by apply room_at_joined.
  rewrite E.
  destruct (room_at w roomId) as [[r|]|]; run_handler; reflexivity.
Qed.

Lemma on_join_room_reject sid (rid name : option string) (rnd : Z) w :
  truthy rid = false ->
  on_join_room sid rid name rnd w =
  (Some tt, w, [(ToSocket sid, MError "roomId required")]).
Proof. intros E. unfold on_join_room. rewrite E. reflexivity. Qed.

(** The world when 'disconnect' fires. *)
Definition vacated w sid : world :=
  World (redis w) (filter (fun s => s <> sid) <$> adapter w) (data w)
        ({[sid]} ∪ closed w).

(** The member count and the moderator after a departure; [others] are the
    sockets fetchSockets finds in the room. *)
Definition departed r sid (others : list string) : room :=
  let r := set_membersCount r (Z.max 0 (int_or (membersCount r) 1 - 1)) in
  if bool_decide (moderatorId r = sid)
  then set_moderatorId r (hd "" others) else r.

Lemma room_at_vacated w sid roomId : room_at (vacated w sid) roomId = room_at w roomId.
Proof. by apply room_at_ext. Qed.

Lemma disconnect_run sid w :
  handle sid Disconnect w =
  let w1 := vacated w sid in
  match binding w sid with
  | Some roomId =>
      match found w roomId with
      | Some r =>
          let r' := departed r sid (members w1 roomId) in
          (Some tt, put_room w1 roomId r',
           if decide (membersCount r' = 0) then []
           else [(ToRoom roomId, MUsers (membersCount r'))])
      | None => (None, w1, [])
      end
  | None => (None, w1, [])
  end.
Proof.
  cbn [handle]. unfold on_disconnect, transport_close, departed, fetchSockets.
  run_handler. fold (vacated w sid).
  change (binding (vacated w sid) sid) with (binding w sid).
  destruct (binding w sid) as [roomId|]; [|reflexivity]. run_handler.
  unfold found. rewrite room_at_vacated.
  destruct (room_at w roomId) as [[r|]|]; try reflexivity. run_handler.
  cbn [set_membersCount moderatorId].
  destruct (bool_decide (moderatorId r = sid)); run_handler;
    destruct (decide _); reflexivity.
Qed.

End Handlers.

(** ** One event at a time *)

Section Events.
Context `{B : Builtins}.
Implicit Types (w : world) (st r : room) (roomId sid : string).

Lemma binding_put_room w roomId st sid :
  binding (put_room w roomId st) sid = binding w sid.
Proof. unfold binding. by rewrite data_put_room. Qed.

Lemma found_put_same w roomId st : found (put_room w roomId st) roomId = Some st.
Proof. unfold found. by rewrite room_at_put_same. Qed.

Lemma found_Some w roomId r :
  room_at w roomId = Some (Some r) -> found w roomId = Some r.
Proof. unfold found. by intros ->. Qed.

(** C10. What setRoom saves under a room's key, getRoom reads back: for
    every room object (strings, a number for the time, a boolean, an integer
    member count, an array of strings) and every prior content of the
    store, getRoom of the same room after setRoom returns that object. *)
Theorem getRoom_after_setRoom w roomId st :
  let w' := (setRoom roomId st w).1.2 in
  getRoom roomId w' = (Some (Some st), w', []).
Proof.
  intros w'. rewrite getRoom_run. f_equal. f_equal.
  apply room_at_put_same.
Qed.

(** C2. A load-video from a socket bound to a room, which is the moderator
    or finds no moderator, with a well-formed id: whatever the room held,
    it now holds that id at position 0, paused, the other fields as they
    were, and load-video with the id goes to the whole room. *)
Theorem load_video_accepted w sid (id : string) roomId r :
  binding w sid = Some roomId ->
  room_at w roomId = Some (Some r) ->
  moderatorId r = "" \/ sid = moderatorId r ->
  isValidYouTubeId (Some id) = true ->
  let res := step w (Recv sid (LoadVideo (Some id))) in
  room_at res.1 roomId =
    Some (Some (Room id zero false (membersCount r) (moderatorId r) (queue r)))
  /\ res.2 = [(ToRoom roomId, MLoadVideo id)].
Proof.
  intros Hb Hr Hm Hv res. subst res. cbn [step handle].
  rewrite on_load_video_run, Hb, (found_Some _ _ _ Hr).
  assert (load_refusal sid (Some id) r = None) as ->.
  { unfold load_refusal. rewrite Hv. destruct Hm as [-> | <-]; [reflexivity|].
    rewrite bool_decide_true by reflexivity. by rewrite andb_false_r. }
  cbn. split; [apply room_at_put_same | reflexivity].
Qed.

(** C3. load-video from a bound socket that is not the room's moderator:
    the moderator-only refusal is sent (to that socket alone) exactly when
    the room has a moderator; a refused request leaves the server as it
    was; and with no moderator the request of any member goes through: a
    well-formed id is loaded and announced to the room. *)
Theorem load_video_moderator_gate w sid (v : option string) roomId r :
  binding w sid = Some roomId ->
  room_at w roomId = Some (Some r) ->
  sid <> moderatorId r ->
  let res := step w (Recv sid (LoadVideo v)) in
  (res.2 = [(ToSocket sid, MError "Only moderator can load video")]
     <-> moderatorId r <> "")
  /\ (isValidYouTubeId v = true ->
      (exists msg, res.2 = [(ToSocket sid, MError msg)]) <-> moderatorId r <> "")
  /\ (forall msg, res.2 = [(ToSocket sid, MError msg)] -> res.1 = w)
  /\ (moderatorId r = "" -> isValidYouTubeId v = true ->
      room_at res.1 roomId = Some (Some (set_video r (default "" v) zero false))
      /\ res.2 = [(ToRoom roomId, MLoadVideo (default "" v))]).
Proof.
  intros Hb Hr Hs res. subst res. cbn [step handle].
  rewrite on_load_video_run, Hb, (found_Some _ _ _ Hr).
  unfold load_refusal. rewrite bool_decide_false by exact Hs. cbn [negb].
  rewrite andb_true_r.
  destruct (moderatorId r) as [|c m] eqn:Em; cbn [truthy].
  - destruct (isValidYouTubeId v); cbn.
    + split; [split; [discriminate | congruence]|].
      split; [intros _; split; [intros [msg [=]] | congruence]|].
      split; [discriminate|]. intros _ _.
      split; [apply room_at_put_same | reflexivity].
    + split; [split; [discriminate | congruence]|].
      split; [discriminate|].
      split; [reflexivity | discriminate].
  - cbn. split; [split; [discriminate | reflexivity]|].
    split; [intros _; split; [discriminate | eauto]|].
    split; [reflexivity | discriminate].
Qed.

(** C5. load-video with an id that is not eleven characters of
    [a-zA-Z0-9_-] (or is no string), from a socket bound to an existing
    room: an error message goes to that socket alone and the server is
    left exactly as it was. *)
Theorem load_video_malformed w sid (v : option string) roomId r :
  binding w sid = Some roomId ->
  room_at w roomId = Some (Some r) ->
  isValidYouTubeId v = false ->
  exists msg, step w (Recv sid (LoadVideo v)) = (w, [(ToSocket sid, MError msg)]).
Proof.
  intros Hb Hr Hv. cbn [step handle].
  rewrite on_load_video_run, Hb, (found_Some _ _ _ Hr).
  unfold load_refusal. rewrite Hv. cbn [negb].
  destruct (truthy _ && _); eauto.
Qed.

(** C6, as the code has it. A chat event whose text is empty or absent is
    dropped without a word: nothing is sent, to the sender or to the room,
    and the server is left as it was. *)
Theorem chat_empty_dropped w sid (text : option string) :
  truthy text = false ->
  step w (Recv sid (Chat text)) = (w, []).
Proof.
  intros Ht. cbn [step handle]. unfold on_chat, bind, socket_data, stop.
  cbn beta iota. rewrite Ht, orb_true_r. reflexivity.
Qed.

(** C9. A second pause at the same position, from the same socket, changes
    nothing: the server after the two events is the server after the
    first. *)
Theorem pause_idempotent w sid (t : option number) :
  next (next w (Recv sid (Pause t))) (Recv sid (Pause t))
  = next w (Recv sid (Pause t)).
Proof.
  unfold next. cbn [step handle]. rewrite !on_pause_run.
  destruct (binding w sid) as [roomId|] eqn:Hb; cbn [fst snd].
  - destruct (found w roomId) as [r|] eqn:Hf; cbn [fst snd].
    + rewrite binding_put_room, Hb, found_put_same. cbn [fst snd].
      apply put_room_twice.
    + by rewrite Hb, Hf.
  - by rewrite Hb.
Qed.

End Events.

(** ** Runs of the server *)

Section Runs.
Context `{B : Builtins}.
Implicit Types (w : world) (st r : room) (roomId sid s : string).

(** An open connection: the transport gives every connection an id of its
    own, never the empty string, and delivers nothing from a connection
    that has closed. *)
Definition live w sid : Prop := sid <> "" /\ sid ∉ closed w.

(** What can happen in [w] at all: an event from a connection that has
    not closed, the expiry of a key, the opening of a connection. An event
    from an id that has not opened is let in as well, though the transport
    delivers none: what holds of these runs holds of the server's. *)
Definition arrives w (l : label) : Prop :=
  match l with
  | Recv sid _ | Connect sid => live w sid
  | Expire _ => True
  end.

(** A connection that has opened: it is in the room of its own id. *)
Definition opened w sid : Prop := sid ∈ members w sid.

(** The same, for clients as room.js is one and ids as socket.io draws
    them. A connection opens under an id that names no room in use: none
    with a socket in it, none with a record. It sends nothing before it has
    opened; it sends join-room on connecting and never again once a room
    is bound; and the room it joins is not one an open connection's id
    names. *)
Definition orderly w (l : label) : Prop :=
  arrives w l /\
  match l with
  | Recv sid e =>
      opened w sid /\
      match e with
      | JoinRoom rid _ _ => binding w sid = None /\ ~ opened w (str_or rid "")
      | _ => True
      end
  | Connect sid => members w sid = [] /\ room_at w sid = Some None
  | Expire _ => True
  end.

(** The same, for clients that report no negative position. *)
Definition reports_nonneg w (l : label) : Prop :=
  arrives w l /\
  match l with
  | Recv _ (Play (Some x)) | Recv _ (Pause (Some x)) | Recv _ (Seek (Some x)) =>
      nonneg x = true
  | _ => True
  end.

(** The worlds a server started on an empty store gets to, when every
    step is one that [ok] allows. *)
Inductive reachable (ok : world -> label -> Prop) : world -> Prop :=
| reachable_init : reachable ok init
| reachable_next w l : reachable ok w -> ok w l -> reachable ok (next w l).

Definition ttl_at w roomId : option Z :=
  redis w !! (ROOM_PREFIX ++ roomId) ≫= ttl.

(** A socket that is open and bound to the room. *)
Definition connected_in w roomId sid : Prop :=
  live w sid /\ binding w sid = Some roomId.

(** The record of a room agrees with the sockets in it. A room without a
    record holds at most the connection its name is the id of; a room with
    a record is no connection's own. *)
Definition room_consistent w roomId : Prop :=
  match room_at w roomId with
  | None => False
  | Some None => forall s, s ∈ members w roomId -> s = roomId
  | Some (Some r) =>
      ~ opened w roomId
      /\ membersCount r = Z.of_nat (length (members w roomId))
      /\ (members w roomId = [] -> moderatorId r = "")
      /\ (members w roomId <> [] -> moderatorId r ∈ members w roomId)
      /\ (ttl_at w roomId <> None -> members w roomId = [])
  end.

(** The rooms of the adapter agree with the bindings of the open sockets;
    an open connection is alone in the room of its id, which is not the
    room it is bound to. *)
Record sessions_consistent w : Prop := SessionsConsistent {
  members_connected :
    forall roomId s, s ∈ members w roomId -> s <> roomId ->
                     connected_in w roomId s;
  members_NoDup : forall roomId, NoDup (members w roomId);
  connected_member :
    forall roomId s, binding w s = Some roomId -> s ∉ closed w ->
                     s ∈ members w roomId;
  bound_apart : forall roomId s, binding w s = Some roomId -> s <> roomId;
  opened_alone : forall s, opened w s -> live w s /\ members w s = [s]
}.

Definition consistent w : Prop :=
  sessions_consistent w /\ forall roomId, room_consistent w roomId.

(** *** Members and bindings after each change of the world *)

Lemma members_joined w sid roomId name roomId' :
  members (joined w sid roomId name) roomId' =
  if decide (roomId' = roomId)
  then if decide (sid ∈ members w roomId) then members w roomId
       else (members w roomId ++ [sid])%list
  else members w roomId'.
Proof.
  unfold members at 1. cbn [joined adapter].
  destruct (decide (roomId' = roomId)) as [->|N].
  - by rewrite lookup_insert_eq.
  - by rewrite lookup_insert_ne.
Qed.

Lemma binding_joined w sid roomId name s :
  roomId <> "" ->
  binding (joined w sid roomId name) s =
  if decide (s = sid) then Some roomId else binding w s.
Proof.
  intros N. unfold binding. cbn [joined data].
  destruct (decide (s = sid)) as [->|Ns].
  - rewrite lookup_insert_eq. cbn. by destruct roomId.
  - by rewrite lookup_insert_ne.
Qed.

Lemma members_vacated w sid roomId :
  members (vacated w sid) roomId = filter (fun s => s <> sid) (members w roomId).
Proof.
  unfold members. cbn [vacated adapter]. rewrite lookup_fmap.
  by destruct (adapter w !! roomId).
Qed.

(** The world after a connection has opened differs in the room of its id
    alone. *)
Lemma members_connect w sid roomId :
  members (next w (Connect sid)) roomId =
  if decide (roomId = sid)
  then if decide (sid ∈ members w sid) then members w sid
       else (members w sid ++ [sid])%list
  else members w roomId.
Proof.
  unfold members at 1, next. cbn [step transport_open socket_join fst adapter].
  destruct (decide (roomId = sid)) as [->|N].
  - by rewrite lookup_insert_eq.
  - by rewrite lookup_insert_ne.
Qed.

Lemma redis_connect w sid : redis (next w (Connect sid)) = redis w.
Proof. reflexivity. Qed.

Lemma binding_connect w sid s : binding (next w (Connect sid)) s = binding w s.
Proof. reflexivity. Qed.

Lemma closed_connect w sid : closed (next w (Connect sid)) = closed w.
Proof. reflexivity. Qed.

Lemma room_at_connect w sid roomId :
  room_at (next w (Connect sid)) roomId = room_at w roomId.
Proof. apply room_at_ext. by rewrite redis_connect. Qed.

Lemma filter_ne_id (l : list string) sid :
  sid ∉ l -> filter (fun s => s <> sid) l = l.
Proof.
  induction l as [|x l IH]; [done|]. intros N.
  rewrite filter_cons, decide_True by set_solver. f_equal. apply IH. set_solver.
Qed.

Lemma filter_ne_length (l : list string) sid :
  NoDup l -> sid ∈ l ->
  Z.of_nat (length (filter (fun s => s <> sid) l)) = Z.of_nat (length l) - 1.
Proof.
  induction 1 as [|x l Hx Hl IH]; [set_solver|]. intros Hin.
  rewrite filter_cons. destruct (decide (x <> sid)) as [N|E].
  - cbn [length]. rewrite !Nat2Z.inj_succ, IH; [lia|].
    apply elem_of_cons in Hin as [E|Hin]; [congruence | exact Hin].
  - apply dec_stable in E. subst x. rewrite filter_ne_id by done.
    cbn [length]. lia.
Qed.

Lemma ttl_at_put_same w roomId st :
  ttl_at (put_room w roomId st) roomId =
  if decide (membersCount st = 0) then Some (60 * 60 * 24) else None.
Proof. unfold ttl_at. by rewrite redis_put_room, lookup_insert_eq. Qed.

Lemma ttl_at_put_other w roomId st roomId' :
  roomId' <> roomId -> ttl_at (put_room w roomId st) roomId' = ttl_at w roomId'.
Proof.
  intros N. unfold ttl_at. rewrite redis_put_room, lookup_insert_ne; [done|].
  intros E. apply N. symmetry. by apply key_inj.
Qed.

Lemma room_at_init roomId : room_at init roomId = Some None.
Proof. reflexivity. Qed.

Lemma room_at_expire key w roomId :
  room_at (expire_key key w) roomId = room_at w roomId
  \/ (room_at (expire_key key w) roomId = Some None
      /\ ttl_at w roomId <> None).
Proof.
  unfold expire_key.
  destruct (redis w !! key) as [[h [t|]]|] eqn:E; auto.
  destruct (decide (key = ROOM_PREFIX ++ roomId)) as [->|N].
  - right. split.
    + unfold room_at, getRoom, bind, redis_hgetall. cbn [with_redis redis].
      rewrite lookup_delete_eq. by rewrite decide_True.
    + unfold ttl_at. by rewrite E.
  - left. apply room_at_ext. cbn [with_redis redis].
    by rewrite lookup_delete_ne.
Qed.

Lemma ttl_at_expire key w roomId :
  ttl_at (expire_key key w) roomId <> None -> ttl_at w roomId <> None.
Proof.
  unfold expire_key, ttl_at.
  destruct (redis w !! key) as [[h [t|]]|] eqn:E; auto.
  cbn [with_redis redis].
  destruct (decide (key = ROOM_PREFIX ++ roomId)) as [->|N].
  - by rewrite lookup_delete_eq.
  - by rewrite lookup_delete_ne.
Qed.

(** *** The fields of a room after a join and after a departure *)

Lemma membersCount_admitted r sid :
  membersCount (admitted r sid) = membersCount r + 1.
Proof.
  unfold admitted. cbn [set_membersCount moderatorId].
  rewrite int_or_0. by destruct (negb _).
Qed.

Lemma moderatorId_admitted r sid :
  moderatorId (admitted r sid) =
  if decide (moderatorId r = "") then sid else moderatorId r.
Proof.
  destruct r as [v t p c m q]. unfold admitted.
  cbn [set_membersCount set_moderatorId moderatorId].
  destruct m; cbn; [by rewrite decide_True | by rewrite decide_False].
Qed.

Lemma time_admitted r sid : time (admitted r sid) = time r.
Proof. unfold admitted. by destruct (negb _). Qed.

Lemma membersCount_departed r sid others :
  membersCount (departed r sid others)
  = Z.max 0 (int_or (membersCount r) 1 - 1).
Proof.
  unfold departed. cbn [set_membersCount moderatorId]. by destruct (bool_decide _).
Qed.

Lemma moderatorId_departed r sid others :
  moderatorId (departed r sid others) =
  if decide (moderatorId r = sid) then hd "" others else moderatorId r.
Proof.
  unfold departed. cbn [set_membersCount moderatorId].
  destruct (decide (moderatorId r = sid)) as [E|N].
  - by rewrite bool_decide_true.
  - by rewrite bool_decide_false.
Qed.

Lemma time_departed r sid others : time (departed r sid others) = time r.
Proof. unfold departed. by destruct (bool_decide _). Qed.

(** *** Consistency of one room *)

Lemma room_consistent_same w w' roomId :
  room_at w' roomId = room_at w roomId ->
  members w' roomId = members w roomId ->
  ttl_at w' roomId = ttl_at w roomId ->
  room_consistent w roomId -> room_consistent w' roomId.
Proof. unfold room_consistent, opened. by intros -> -> ->. Qed.

Lemma room_consistent_put w roomId st :
  ~ opened w roomId ->
  membersCount st = Z.of_nat (length (members w roomId)) ->
  (members w roomId = [] -> moderatorId st = "") ->
  (members w roomId <> [] -> moderatorId st ∈ members w roomId) ->
  room_consistent (put_room w roomId st) roomId.
Proof.
  intros Ho Hc H0 H1. unfold room_consistent, opened.
  rewrite room_at_put_same, members_put_room, ttl_at_put_same.
  refine (conj Ho (conj Hc (conj H0 (conj H1 _)))).
  destruct (decide (membersCount st = 0)) as [E|N]; [|done].
  intros _. rewrite E in Hc. destruct (members w roomId); [done | discriminate Hc].
Qed.

Lemma room_consistent_put_other w roomId st roomId' :
  roomId' <> roomId ->
  room_consistent w roomId' -> room_consistent (put_room w roomId st) roomId'.
Proof.
  intros N. apply room_consistent_same.
  - by apply room_at_put_other.
  - apply members_put_room.
  - by apply ttl_at_put_other.
Qed.

(** A room with no record and no connection of its name in it is empty. *)
Lemma room_consistent_empty w roomId :
  room_consistent w roomId -> room_at w roomId = Some None ->
  ~ opened w roomId -> members w roomId = [].
Proof.
  unfold room_consistent, opened. intros H E Ho. rewrite E in H.
  destruct (members w roomId) as [|s l]; [done|]. destruct Ho.
  rewrite <- (H s); left.
Qed.

(** A room with a member that is not the connection of its name has a
    record. *)
Lemma room_consistent_record w roomId s :
  room_consistent w roomId -> s ∈ members w roomId -> s <> roomId ->
  exists r, room_at w roomId = Some (Some r).
Proof.
  unfold room_consistent. intros H Hs N.
  destruct (room_at w roomId) as [[r|]|]; [by exists r | | done].
  by destruct N, (H s).
Qed.

Lemma sessions_consistent_put w roomId st :
  sessions_consistent w -> sessions_consistent (put_room w roomId st).
Proof.
  intros [H1 H2 H3 H4 H5]. split.
  - intros rid s. rewrite members_put_room. intros Hs N.
    destruct (H1 rid s Hs N) as [[? ?] ?]. unfold connected_in, live.
    by rewrite binding_put_room, closed_put_room.
  - intros rid. by rewrite members_put_room.
  - intros rid s. rewrite binding_put_room, closed_put_room, members_put_room.
    apply H3.
  - intros rid s. rewrite binding_put_room. apply H4.
  - intros s. unfold opened, live. rewrite members_put_room, closed_put_room.
    apply H5.
Qed.

(** *** Consistency of the sessions *)

Lemma sessions_consistent_joined w sid roomId name :
  sessions_consistent w -> live w sid -> opened w sid ->
  binding w sid = None -> roomId <> "" -> ~ opened w roomId ->
  sessions_consistent (joined w sid roomId name).
Proof.
  intros [H1 H2 H3 H4 H5] Hl Ho Hb Hr Hno.
  assert (Hne : sid <> roomId) by (by intros ->).
  assert (Hnot : forall rid, sid <> rid -> sid ∉ members w rid).
  { intros rid N Hin. destruct (H1 rid sid Hin N) as [_ E]. congruence. }
  assert (Hnot' : sid ∉ members w roomId) by by apply Hnot.
  split.
  - intros rid s. rewrite members_joined. unfold connected_in.
    rewrite binding_joined by done. change (live (joined w sid roomId name) s)
      with (live w s).
    destruct (decide (rid = roomId)) as [->|N].
    + rewrite decide_False by done. rewrite elem_of_app, list_elem_of_singleton.
      intros [Hs | ->] Ns.
      * destruct (H1 roomId s Hs Ns) as [? ?]. rewrite decide_False; [done|].
        by intros ->.
      * by rewrite decide_True.
    + intros Hs Ns. destruct (H1 rid s Hs Ns) as [? ?]. rewrite decide_False; [done|].
      intros ->. by apply (Hnot rid).
  - intros rid. rewrite members_joined.
    destruct (decide (rid = roomId)) as [->|N]; [|apply H2].
    rewrite decide_False by done. apply NoDup_app. repeat split.
    + apply H2.
    + intros x Hx. rewrite list_elem_of_singleton. by intros ->.
    + apply NoDup_singleton.
  - intros rid s. rewrite binding_joined by done. rewrite members_joined.
    change (closed (joined w sid roomId name)) with (closed w).
    destruct (decide (s = sid)) as [->|Ns].
    + intros [= <-] _. rewrite decide_True by done.
      rewrite decide_False by done. apply elem_of_app. right.
      by apply list_elem_of_singleton.
    + intros Hs Hc. pose proof (H3 rid s Hs Hc) as Hin.
      destruct (decide (rid = roomId)) as [->|N]; [|done].
      rewrite decide_False by done. apply elem_of_app. by left.
  - intros rid s. rewrite binding_joined by done.
    destruct (decide (s = sid)) as [->|Ns]; [by intros [= <-] | apply H4].
  - intros s. unfold opened. rewrite members_joined.
    change (live (joined w sid roomId name) s) with (live w s).
    destruct (decide (s = roomId)) as [->|N]; [|apply H5].
    rewrite decide_False by done. rewrite elem_of_app, list_elem_of_singleton.
    intros [Hs | E]; [by destruct Hno | by destruct Hne].
Qed.

Lemma sessions_consistent_vacated w sid :
  sessions_consistent w -> sessions_consistent (vacated w sid).
Proof.
  intros [H1 H2 H3 H4 H5]. split.
  - intros rid s. rewrite members_vacated, list_elem_of_filter. intros [Ns Hs] N.
    destruct (H1 rid s Hs N) as [[? ?] ?]. repeat split; try done.
    cbn [vacated closed]. rewrite elem_of_union, elem_of_singleton. tauto.
  - intros rid. rewrite members_vacated. by apply NoDup_filter.
  - intros rid s Hb. cbn [vacated closed]. intros Hc.
    rewrite elem_of_union, elem_of_singleton in Hc.
    rewrite members_vacated, list_elem_of_filter. split; [tauto|].
    apply H3; [done | tauto].
  - exact H4.
  - intros s. unfold opened. rewrite members_vacated, list_elem_of_filter.
    intros [Ns Hs]. destruct (H5 s Hs) as [[Hne Hcl] Hm]. split.
    + split; [done|]. cbn [vacated closed].
      rewrite elem_of_union, elem_of_singleton. tauto.
    + rewrite Hm. apply filter_ne_id. rewrite list_elem_of_singleton. congruence.
Qed.

Lemma sessions_consistent_expire key w :
  sessions_consistent w -> sessions_consistent (expire_key key w).
Proof.
  unfold expire_key. destruct (redis w !! key) as [[h [t|]]|]; try done.
  by intros [H1 H2 H3 H4 H5].
Qed.

Lemma sessions_consistent_connect w sid :
  sessions_consistent w -> live w sid -> members w sid = [] ->
  sessions_consistent (next w (Connect sid)).
Proof.
  intros [H1 H2 H3 H4 H5] Hl Hm.
  assert (Hms : forall rid, members (next w (Connect sid)) rid
                            = if decide (rid = sid) then [sid] else members w rid).
  { intros rid. rewrite members_connect, Hm.
    by rewrite (decide_False (P := sid ∈ [])) by apply not_elem_of_nil. }
  split.
  - intros rid s. rewrite Hms. unfold connected_in, live.
    rewrite binding_connect, closed_connect.
    destruct (decide (rid = sid)) as [->|N]; [|apply H1].
    intros Hin N. by apply list_elem_of_singleton in Hin.
  - intros rid. rewrite Hms.
    destruct (decide (rid = sid)); [apply NoDup_singleton | apply H2].
  - intros rid s. rewrite binding_connect, closed_connect, Hms. intros Hb Hc.
    pose proof (H3 rid s Hb Hc) as Hin.
    destruct (decide (rid = sid)) as [->|N]; [|done].
    rewrite Hm in Hin. by apply elem_of_nil in Hin.
  - intros rid s. rewrite binding_connect. apply H4.
  - intros s. unfold opened, live. rewrite Hms, closed_connect.
    destruct (decide (s = sid)) as [->|N]; [done | apply H5].
Qed.

(** *** Consistency after each event *)

Lemma consistent_init : consistent init.
Proof.
  split; [split|].
  - intros rid s. unfold members. cbn. rewrite lookup_empty. set_solver.
  - intros rid. unfold members. cbn. rewrite lookup_empty. constructor.
  - intros rid s. unfold binding. cbn. by rewrite lookup_empty.
  - intros rid s. unfold binding. cbn. by rewrite lookup_empty.
  - intros s. unfold opened, members. cbn. rewrite lookup_empty. set_solver.
  - intros rid. unfold room_consistent. rewrite room_at_init.
    unfold members. cbn. rewrite lookup_empty. set_solver.
Qed.

(** A handler that writes the room back with its member count and its
    moderator as it found them. *)
Lemma consistent_put w roomId r r' :
  consistent w -> found w roomId = Some r ->
  membersCount r' = membersCount r -> moderatorId r' = moderatorId r ->
  consistent (put_room w roomId r').
Proof.
  intros [Hs Hr] Hf Hc Hm. split; [by apply sessions_consistent_put|].
  intros rid. destruct (decide (rid = roomId)) as [->|N].
  - specialize (Hr roomId). unfold room_consistent, found in Hr, Hf.
    destruct (room_at w roomId) as [[r0|]|]; simplify_eq.
    destruct Hr as (Ho & H1 & H2 & H3 & _).
    apply room_consistent_put; rewrite ?Hc, ?Hm; assumption.
  - by apply room_consistent_put_other.
Qed.

Lemma consistent_connect w sid :
  consistent w -> live w sid -> members w sid = [] ->
  room_at w sid = Some None ->
  consistent (next w (Connect sid)).
Proof.
  intros [Hs Hr] Hl Hm Hnone.
  split; [by apply sessions_consistent_connect|].
  intros rid. destruct (decide (rid = sid)) as [->|N].
  - unfold room_consistent. rewrite room_at_connect, Hnone.
    intros s. rewrite members_connect, decide_True, Hm by done.
    rewrite (decide_False (P := sid ∈ [])) by apply not_elem_of_nil.
    intros Hin. by apply list_elem_of_singleton in Hin.
  - apply (room_consistent_same w); [apply room_at_connect| |done|apply Hr].
    by rewrite members_connect, decide_False.
Qed.

Lemma consistent_join w sid roomId name rnd :
  consistent w -> live w sid -> opened w sid -> binding w sid = None ->
  roomId <> "" -> ~ opened w roomId ->
  consistent (next w (Recv sid (JoinRoom (Some roomId) name rnd))).
Proof.
  intros [Hs Hr] Hl Ho Hb Hn Hno. unfold next. cbn [step handle].
  rewrite on_join_room_run by done. cbn zeta.
  set (nm := str_or name _). set (w1 := joined w sid roomId nm).
  assert (Hs1 : sessions_consistent w1) by by apply sessions_consistent_joined.
  assert (Hne : sid <> roomId) by (by intros ->).
  assert (Hnot : sid ∉ members w roomId).
  { intros Hin. destruct (members_connected w Hs roomId sid Hin Hne). congruence. }
  assert (Hm1 : members w1 roomId = (members w roomId ++ [sid])%list).
  { unfold w1. rewrite members_joined, decide_True by done.
    by rewrite decide_False. }
  assert (Ho1 : ~ opened w1 roomId).
  { unfold opened. rewrite Hm1, elem_of_app, list_elem_of_singleton.
    intros [Hin | E]; [by apply Hno | by apply Hne]. }
  assert (Hother : forall rid, rid <> roomId -> room_consistent w1 rid).
  { intros rid N. apply (room_consistent_same w); [apply room_at_joined| |done|apply Hr].
    unfold w1. rewrite members_joined. by rewrite decide_False. }
  assert (Hsid : sid <> "") by apply Hl.
  pose proof (Hr roomId) as Hroom.
  destruct (room_at w roomId) as [[r|]|] eqn:Hat; cbn [fst snd].
  - unfold room_consistent in Hroom. rewrite Hat in Hroom.
    destruct Hroom as (_ & Hc & H0 & H1 & _).
    split; [by apply sessions_consistent_put|].
    intros rid. destruct (decide (rid = roomId)) as [->|N];
      [|by apply room_consistent_put_other, Hother].
    apply room_consistent_put; [exact Ho1|..]; rewrite Hm1.
    + rewrite membersCount_admitted, Hc, length_app. cbn. lia.
    + by destruct (members w roomId).
    + intros _. rewrite moderatorId_admitted.
      destruct (decide (moderatorId r = "")) as [E|E]; [set_solver|].
      apply elem_of_app. left. apply H1. intros Hnil. by apply E, H0.
  - pose proof (room_consistent_empty w roomId Hroom Hat Hno) as Hnil.
    split; [by do 2 apply sessions_consistent_put|].
    intros rid. destruct (decide (rid = roomId)) as [->|N];
      [|by do 2 (apply room_consistent_put_other; [done|]); apply Hother].
    apply room_consistent_put; [unfold opened in *; by rewrite members_put_room|..];
      rewrite members_put_room, Hm1, Hnil.
    + by rewrite membersCount_admitted.
    + done.
    + intros _. rewrite moderatorId_admitted. cbn [initial_room moderatorId].
      rewrite decide_False by done. set_solver.
  - unfold room_consistent in Hroom. by rewrite Hat in Hroom.
Qed.

Lemma consistent_disconnect w sid :
  consistent w -> live w sid ->
  consistent (next w (Recv sid Disconnect)).
Proof.
  intros [Hs Hr] Hl. unfold next. cbn [step]. rewrite disconnect_run. cbn zeta.
  set (w1 := vacated w sid).
  assert (Hs1 : sessions_consistent w1) by by apply sessions_consistent_vacated.
  assert (Hsame : forall rid, sid ∉ members w rid -> room_consistent w1 rid).
  { intros rid Hnot. apply (room_consistent_same w);
      [apply room_at_vacated| |done|apply Hr].
    unfold w1. rewrite members_vacated. by apply filter_ne_id. }
  assert (Hown : room_consistent w1 sid).
  { destruct (decide (sid ∈ members w sid)) as [Hin|Hout]; [|by apply Hsame].
    pose proof (Hr sid) as H. unfold room_consistent in H |- *.
    unfold w1. rewrite room_at_vacated.
    destruct (room_at w sid) as [[r|]|]; [by destruct H as [[] _] | | done].
    intros s. rewrite members_vacated, list_elem_of_filter. intros [_ Hs']. by apply H. }
  assert (Hrest : forall rid, binding w sid <> Some rid -> room_consistent w1 rid).
  { intros rid N. destruct (decide (rid = sid)) as [->|Nr]; [exact Hown|].
    apply Hsame. intros Hrid.
    destruct (members_connected w Hs rid sid Hrid) as [_ E]; congruence. }
  destruct (binding w sid) as [roomId|] eqn:Hb; cbn [fst snd].
  - assert (Hne : sid <> roomId) by (by apply (bound_apart w Hs)).
    assert (Hin : sid ∈ members w roomId)
      by (apply (connected_member w Hs); [done | apply Hl]).
    destruct (room_consistent_record w roomId sid (Hr roomId) Hin Hne) as [r Hat].
    pose proof (Hr roomId) as Hroom. unfold room_consistent in Hroom.
    rewrite Hat in Hroom. rewrite (found_Some _ _ _ Hat). cbn [fst snd].
    destruct Hroom as (Hno & Hc & H0 & H1 & _).
    assert (Hm1 : members w1 roomId
                  = filter (fun s => s <> sid) (members w roomId))
      by apply members_vacated.
    assert (Hlen : Z.of_nat (length (members w1 roomId))
                   = Z.of_nat (length (members w roomId)) - 1).
    { rewrite Hm1. apply filter_ne_length; [apply Hs | done]. }
    split; [by apply sessions_consistent_put|].
    intros rid. destruct (decide (rid = roomId)) as [->|N].
    2:{ apply room_consistent_put_other; [done|]. apply Hrest. congruence. }
    assert (Hmod : moderatorId r <> sid -> moderatorId r ∈ members w1 roomId).
    { intros Hmne. rewrite Hm1. apply list_elem_of_filter. split; [done|].
      apply H1. intros E. rewrite E in Hin. set_solver. }
    apply room_consistent_put.
    + unfold opened. rewrite Hm1, list_elem_of_filter. intros [_ Hopen].
      by apply Hno.
    + rewrite membersCount_departed, Hlen, Hc. unfold int_or.
      destruct (members w roomId); [set_solver|]. cbn [length].
      rewrite decide_False by lia. lia.
    + intros Hnil. rewrite moderatorId_departed.
      destruct (decide (moderatorId r = sid)) as [E|E]; [by rewrite Hnil|].
      apply Hmod in E. rewrite Hnil in E. set_solver.
    + intros Hnn. rewrite moderatorId_departed.
      destruct (decide (moderatorId r = sid)) as [E|E]; [|by apply Hmod].
      destruct (members w1 roomId); [done | set_solver].
  - split; [done|]. intros rid. by apply Hrest.
Qed.

Lemma consistent_expire key w :
  consistent w -> consistent (expire_key key w).
Proof.
  intros [Hs Hr]. split; [by apply sessions_consistent_expire|].
  intros rid. specialize (Hr rid).
  assert (Hm : members (expire_key key w) rid = members w rid).
  { unfold expire_key. by destruct (redis w !! key) as [[h [t|]]|]. }
  destruct (room_at_expire key w rid) as [E | [E Ht]].
  - unfold room_consistent, opened in *. rewrite E, Hm.
    destruct (room_at w rid) as [[r|]|]; try done.
    destruct Hr as (H0 & H1 & H2 & H3 & H4).
    refine (conj H0 (conj H1 (conj H2 (conj H3 _)))).
    intros Ht. apply H4. exact (ttl_at_expire key w rid Ht).
  - unfold room_consistent in *. rewrite E, Hm.
    destruct (room_at w rid) as [[r|]|]; try done.
    destruct Hr as (_ & _ & _ & _ & H4). rewrite (H4 Ht).
    intros s Hs'. by apply elem_of_nil in Hs'.
Qed.

Lemma truthy_false_or_Some (v : option string) :
  truthy v = false \/ exists roomId, v = Some roomId /\ roomId <> "".
Proof. destruct v as [[|c x]|]; eauto. Qed.

Lemma consistent_next w l :
  consistent w -> orderly w l -> consistent (next w l).
Proof.
  intros Hw [Ha Hj]. destruct l as [sid e|key|sid];
    [|by apply consistent_expire|by destruct Hj; apply consistent_connect].
  cbn in Ha. destruct Hj as [Ho Hj].
  destruct e as [rid name rnd|v|t|t|t|text| |].
  - destruct (truthy_false_or_Some rid) as [E | (roomId & -> & N)].
    + unfold next. cbn [step handle]. by rewrite on_join_room_reject.
    + destruct Hj as [Hb Hno]. rewrite str_or_Some in Hno by done.
      by apply consistent_join.
  - unfold next. cbn [step handle]. rewrite on_load_video_run.
    destruct (binding w sid) as [roomId|]; [|done].
    destruct (found w roomId) as [r|] eqn:Hf; [|done].
    destruct (load_refusal sid v r); [done|]. by eapply consistent_put.
  - unfold next. cbn [step handle]. rewrite on_play_run.
    destruct (binding w sid) as [roomId|]; [|done].
    destruct (found w roomId) as [r|] eqn:Hf; [|done]. by eapply consistent_put.
  - unfold next. cbn [step handle]. rewrite on_pause_run.
    destruct (binding w sid) as [roomId|]; [|done].
    destruct (found w roomId) as [r|] eqn:Hf; [|done]. by eapply consistent_put.
  - unfold next. cbn [step handle]. rewrite on_seek_run.
    destruct (binding w sid) as [roomId|]; [|done].
    destruct (found w roomId) as [r|] eqn:Hf; [|done]. by eapply consistent_put.
  - unfold next. cbn [step handle].
    pose proof (on_chat_world sid text w) as E.
    destruct (on_chat sid text w) as [[res w'] out]. cbn in E |- *. by subst w'.
  - unfold next. cbn [step handle]. rewrite on_request_sync_run.
    destruct (binding w sid) as [roomId|]; [|done].
    by destruct (found w roomId) as [r|].
  - by apply consistent_disconnect.
Qed.

Lemma consistent_reachable w : reachable orderly w -> consistent w.
Proof.
  induction 1 as [|w l _ IH Hok]; [apply consistent_init|].
  by apply consistent_next.
Qed.

(** What consistency says of one room's record. *)
Lemma consistent_room w roomId r :
  consistent w -> room_at w roomId = Some (Some r) ->
  0 <= membersCount r
  /\ (moderatorId r = "" <-> membersCount r = 0)
  /\ (0 < membersCount r -> connected_in w roomId (moderatorId r)).
Proof.
  intros [Hs Hr] E. specialize (Hr roomId). unfold room_consistent in Hr.
  rewrite E in Hr. destruct Hr as (Hno & Hc & H0 & H1 & _).
  assert (Hin : members w roomId <> [] -> connected_in w roomId (moderatorId r)).
  { intros Hnn. apply (members_connected w Hs); [by apply H1|].
    intros Eq. apply Hno. unfold opened. rewrite <- Eq at 1. by apply H1. }
  destruct (members w roomId) as [|s l] eqn:Hm.
  - cbn in Hc. rewrite Hc, H0 by done. repeat split; lia.
  - destruct Hin as [[Hne Hcl] Hb]; [done|].
    cbn [length] in Hc. repeat split; try lia; try done.
Qed.

(** *** Positions *)

Definition times_nonneg w : Prop :=
  forall roomId r, room_at w roomId = Some (Some r) -> nonneg (time r) = true.

Lemma times_nonneg_put w roomId st :
  times_nonneg w -> nonneg (time st) = true ->
  times_nonneg (put_room w roomId st).
Proof.
  intros Hw Hst rid r. destruct (decide (rid = roomId)) as [->|N].
  - rewrite room_at_put_same. by intros [= <-].
  - rewrite room_at_put_other by done. apply Hw.
Qed.

Lemma nonneg_num_or_0 (t : option number) :
  match t with Some x => nonneg x = true | None => True end ->
  nonneg (num_or_0 t) = true.
Proof.
  destruct t as [x|]; cbn; [|intros _; apply nonneg_zero].
  destruct (decide (x = zero)); [intros _; apply nonneg_zero | done].
Qed.

Lemma times_nonneg_next w l :
  times_nonneg w -> reports_nonneg w l -> times_nonneg (next w l).
Proof.
  intros Hw [_ Ht]. destruct l as [sid e|key|sid].
  3:{ intros rid r. rewrite room_at_connect. apply Hw. }
  2:{ intros rid r. cbn. destruct (room_at_expire key w rid) as [-> | [-> _]];
        [apply Hw | done]. }
  assert (Hfound : forall roomId r, found w roomId = Some r -> nonneg (time r) = true).
  { intros roomId r Hf. apply (Hw roomId). unfold found in Hf.
    by destruct (room_at w roomId) as [[r0|]|]; simplify_eq. }
  destruct e as [rid name rnd|v|t|t|t|text| |]; unfold next; cbn [step];
    [cbn [handle] .. | ].
  - destruct (truthy_false_or_Some rid) as [E | (roomId & -> & N)].
    + by rewrite on_join_room_reject.
    + rewrite on_join_room_run by done. cbn zeta.
      set (w1 := joined w sid roomId _).
      assert (Hw1 : times_nonneg w1)
        by (intros rid r; unfold w1; rewrite room_at_joined; apply Hw).
      destruct (room_at w roomId) as [[r|]|] eqn:E; cbn [fst snd]; [| |done].
      * apply times_nonneg_put; [done|]. rewrite time_admitted. by apply (Hw roomId).
      * do 2 (apply times_nonneg_put; [|rewrite ?time_admitted; apply nonneg_zero]).
        done.
  - rewrite on_load_video_run.
    destruct (binding w sid) as [roomId|]; [|done].
    destruct (found w roomId) as [r|] eqn:Hf; [|done].
    destruct (load_refusal sid v r); [done|].
    apply times_nonneg_put; [done | apply nonneg_zero].
  - rewrite on_play_run.
    destruct (binding w sid) as [roomId|]; [|done].
    destruct (found w roomId) as [r|] eqn:Hf; [|done].
    apply times_nonneg_put; [done|]. apply nonneg_num_or_0. by destruct t.
  - rewrite on_pause_run.
    destruct (binding w sid) as [roomId|]; [|done].
    destruct (found w roomId) as [r|] eqn:Hf; [|done].
    apply times_nonneg_put; [done|]. apply nonneg_num_or_0. by destruct t.
  - rewrite on_seek_run.
    destruct (binding w sid) as [roomId|]; [|done].
    destruct (found w roomId) as [r|] eqn:Hf; [|done].
    apply times_nonneg_put; [done|]. apply nonneg_num_or_0. by destruct t.
  - pose proof (on_chat_world sid text w) as E.
    destruct (on_chat sid text w) as [[res w'] out]. cbn in E |- *. by subst w'.
  - rewrite on_request_sync_run.
    destruct (binding w sid) as [roomId|]; [|done].
    by destruct (found w roomId) as [r|].
  - rewrite disconnect_run. cbn zeta. set (w1 := vacated w sid).
    assert (Hw1 : times_nonneg w1)
      by (intros rid r; unfold w1; rewrite room_at_vacated; apply Hw).
    destruct (binding w sid) as [roomId|]; [|done].
    destruct (found w roomId) as [r|] eqn:Hf; [|done]. cbn [fst snd].
    apply times_nonneg_put; [done|]. rewrite time_departed. by eapply Hfound.
Qed.

(** *** Records that can be read *)

(** getRoom throws in no room. *)
Definition readable w : Prop := forall roomId, room_at w roomId <> None.

Lemma readable_put w roomId st : readable w -> readable (put_room w roomId st).
Proof.
  intros Hw rid. destruct (decide (rid = roomId)) as [->|N].
  - by rewrite room_at_put_same.
  - rewrite room_at_put_other by done. apply Hw.
Qed.

Lemma readable_next w l : readable w -> readable (next w l).
Proof.
  intros Hw. destruct l as [sid e|key|sid].
  3:{ intros rid. rewrite room_at_connect. apply Hw. }
  2:{ intros rid. cbn. destruct (room_at_expire key w rid) as [-> | [-> _]];
        [apply Hw | done]. }
  destruct e as [rid name rnd|v|t|t|t|text| |]; unfold next; cbn [step];
    [cbn [handle] .. | ].
  - destruct (truthy_false_or_Some rid) as [E | (roomId & -> & N)].
    + by rewrite on_join_room_reject.
    + rewrite on_join_room_run by done. cbn zeta.
      set (w1 := joined w sid roomId _).
      assert (Hw1 : readable w1)
        by (intros rid; unfold w1; rewrite room_at_joined; apply Hw).
      destruct (room_at w roomId) as [[r|]|]; cbn [fst snd]; [| |done].
      * by apply readable_put.
      * by do 2 apply readable_put.
  - rewrite on_load_video_run.
    destruct (binding w sid) as [roomId|]; [|done].
    destruct (found w roomId) as [r|]; [|done].
    destruct (load_refusal sid v r); [done|]. by apply readable_put.
  - rewrite on_play_run.
    destruct (binding w sid) as [roomId|]; [|done].
    destruct (found w roomId) as [r|]; [|done]. by apply readable_put.
  - rewrite on_pause_run.
    destruct (binding w sid) as [roomId|]; [|done].
    destruct (found w roomId) as [r|]; [|done]. by apply readable_put.
  - rewrite on_seek_run.
    destruct (binding w sid) as [roomId|]; [|done].
    destruct (found w roomId) as [r|]; [|done]. by apply readable_put.
  - pose proof (on_chat_world sid text w) as E.
    destruct (on_chat sid text w) as [[res w'] out]. cbn in E |- *. by subst w'.
  - rewrite on_request_sync_run.
    destruct (binding w sid) as [roomId|]; [|done].
    by destruct (found w roomId) as [r|].
  - rewrite disconnect_run. cbn zeta. set (w1 := vacated w sid).
    assert (Hw1 : readable w1)
      by (intros rid; unfold w1; rewrite room_at_vacated; apply Hw).
    destruct (binding w sid) as [roomId|]; [|done].
    destruct (found w roomId) as [r|]; [|done]. by apply readable_put.
Qed.

Lemma readable_reachable ok w : reachable ok w -> readable w.
Proof.
  induction 1 as [|w l _ IH _]; [by intros rid|]. by apply readable_next.
Qed.

(** *** Traces *)

(** Every step of the trace is one [ok] allows. *)
Fixpoint allowed (ok : world -> label -> Prop) w (ls : list label) : Prop :=
  match ls with
  | [] => True
  | l :: ls => ok w l /\ allowed ok (next w l) ls
  end.

Lemma reachable_run ok w ls :
  reachable ok w -> allowed ok w ls -> reachable ok (run w ls).
Proof.
  revert w. induction ls as [|l ls IH]; intros w Hw Hls; [exact Hw|].
  destruct Hls as [Hl Hls]. apply (IH (next w l)); [|exact Hls].
  by apply reachable_next.
Qed.

(** ** The rooms of a running server *)

(** C1, as the code has it. On a server whose clients send no join-room
    from a connection that is already bound to a room, and where no room
    goes by the id of a connection (none is joined under the id of an open
    connection, and none is in use under the id a connection opens with),
    every room record has a member count that is not negative, has the
    empty moderatorId exactly when that count is 0, and, when the count is
    positive, has for moderator an open connection bound to the room. *)
Theorem room_invariant_orderly w roomId r :
  reachable orderly w ->
  room_at w roomId = Some (Some r) ->
  0 <= membersCount r
  /\ (moderatorId r = "" <-> membersCount r = 0)
  /\ (0 < membersCount r -> connected_in w roomId (moderatorId r)).
Proof.
  intros Hw. apply consistent_room. by apply consistent_reachable.
Qed.

(** C4, as the code has it. On a server whose clients send no join-room
    from a bound connection, and where no room goes by the id of a
    connection: when the moderator's connection closes, the room's count
    goes down by one and, if it is still positive, the new moderatorId is
    not empty, is not the closed connection's id, and names an open
    connection bound to the room. *)
Theorem moderator_replaced_orderly w sid roomId r :
  reachable orderly w ->
  live w sid ->
  binding w sid = Some roomId ->
  room_at w roomId = Some (Some r) ->
  moderatorId r = sid ->
  let w' := next w (Recv sid Disconnect) in
  exists r',
    room_at w' roomId = Some (Some r')
    /\ membersCount r' = membersCount r - 1
    /\ (0 < membersCount r' ->
        moderatorId r' <> "" /\ moderatorId r' <> sid
        /\ connected_in w' roomId (moderatorId r')).
Proof.
  intros Hw Hl Hb Hr Hm w'.
  assert (Hw' : consistent w')
    by (apply consistent_disconnect; [by apply consistent_reachable | done]).
  assert (Hc : 1 <= membersCount r).
  { destruct (consistent_reachable w Hw) as [Hs Hrooms].
    specialize (Hrooms roomId). unfold room_consistent in Hrooms.
    rewrite Hr in Hrooms. destruct Hrooms as (_ & -> & _).
    assert (Hin : sid ∈ members w roomId)
      by (apply (connected_member w Hs); [done | apply Hl]).
    destruct (members w roomId); [by apply elem_of_nil in Hin | cbn [length]; lia]. }
  assert (Eq : w' = put_room (vacated w sid) roomId
                      (departed r sid (members (vacated w sid) roomId))).
  { unfold w', next. cbn [step]. rewrite disconnect_run. cbn zeta.
    by rewrite Hb, (found_Some _ _ _ Hr). }
  exists (departed r sid (members (vacated w sid) roomId)).
  assert (Hr' : room_at w' roomId
                = Some (Some (departed r sid (members (vacated w sid) roomId))))
    by (rewrite Eq; apply room_at_put_same).
  split; [exact Hr'|]. split.
  - rewrite membersCount_departed. unfold int_or.
    rewrite decide_False by lia. lia.
  - intros Hpos.
    destruct (consistent_room w' roomId _ Hw' Hr') as (_ & Hiff & Hconn).
    specialize (Hconn Hpos). split; [|split; [|exact Hconn]].
    + intros E. apply Hiff in E. lia.
    + intros E. destruct Hconn as [[_ Hopen] _]. apply Hopen. rewrite E, Eq.
      rewrite closed_put_room. cbn [vacated closed].
      apply elem_of_union. left. by apply elem_of_singleton.
Qed.

(** C8, as the code has it. The handlers store the position a client
    reports as it comes; on a server whose clients report no negative
    position in play, pause and seek, the position of every room record is
    not negative. *)
Theorem position_nonneg_when_reported_so w roomId r :
  reachable reports_nonneg w ->
  room_at w roomId = Some (Some r) ->
  nonneg (time r) = true.
Proof.
  intros Hw. revert roomId r.
  induction Hw as [|w l _ IH Hok]; [by intros rid r|].
  by apply times_nonneg_next.
Qed.

(** C7, as the code has it. On a running server, join-room with no roomId,
    or an empty one, is answered with an error to the sender and changes
    nothing. Any other join-room binds the connection to the room it names
    and raises that room's count by one (from 0 for a room with no record),
    also when the connection was bound before, to this room or to another:
    the last bind wins, and the records of the other rooms stay as they
    were. *)
Theorem join_room_last_bind_wins w sid (rid name : option string) (rnd : Z) :
  reachable arrives w ->
  let res := step w (Recv sid (JoinRoom rid name rnd)) in
  if truthy rid then
    let roomId := str_or rid "" in
    binding res.1 sid = Some roomId
    /\ (exists r',
          room_at res.1 roomId = Some (Some r')
          /\ membersCount r'
             = match found w roomId with
               | Some r => membersCount r
               | None => 0
               end + 1)
    /\ (forall roomId', roomId' <> roomId ->
                        room_at res.1 roomId' = room_at w roomId')
  else res = (w, [(ToSocket sid, MError "roomId required")]).
Proof.
  intros Hw res. subst res.
  destruct (truthy_false_or_Some rid) as [E | (roomId & -> & N)].
  - rewrite E. cbn [step handle]. by rewrite on_join_room_reject.
  - pose proof (readable_reachable _ w Hw roomId) as Hread.
    rewrite truthy_Some, str_or_Some by done. cbn [step handle].
    rewrite on_join_room_run by done. cbn zeta. unfold found.
    destruct (room_at w roomId) as [[r|]|] eqn:E; [| |done]; cbn [fst snd].
    + repeat split.
      * by rewrite binding_put_room, binding_joined, decide_True.
      * eexists. split; [apply room_at_put_same|]. apply membersCount_admitted.
      * intros rid' N'. by rewrite room_at_put_other, room_at_joined.
    + repeat split.
      * by rewrite !binding_put_room, binding_joined, decide_True.
      * eexists. split; [apply room_at_put_same|]. apply membersCount_admitted.
      * intros rid' N'. by rewrite !room_at_put_other, room_at_joined.
Qed.

End Runs.

(** ** Deciding what a trace is allowed *)

Section Deciding.
Context `{B : Builtins}.

#[global] Instance live_dec w sid : Decision (live w sid).
Proof. unfold live. apply _. Defined.

#[global] Instance arrives_dec w l : Decision (arrives w l).
Proof. destruct l; cbn; apply _. Defined.

#[global] Instance room_eq_dec : EqDecision room.
Proof. solve_decision. Defined.

#[global] Instance opened_dec w sid : Decision (opened w sid).
Proof. unfold opened. apply _. Defined.

#[global] Instance orderly_dec w l : Decision (orderly w l).
Proof.
  unfold orderly. apply and_dec; [apply _|].
  destruct l as [sid []| |]; apply _.
Defined.

#[global] Instance reports_nonneg_dec w l : Decision (reports_nonneg w l).
Proof.
  unfold reports_nonneg. apply and_dec; [apply _|].
  destruct l as [sid [| |[]|[]|[]| | |]| |]; apply _.
Defined.

#[global] Instance allowed_dec ok `{!forall w l, Decision (ok w l)} w ls :
  Decision (allowed ok w ls).
Proof. revert w. induction ls; intros w; cbn; apply _. Defined.

End Deciding.

(** * The server at work

    Runs on integer positions: the scenarios of the specification, the
    inputs at which the code departs from it, and the theorems above at
    concrete worlds. *)

Module Scenario.

Definition label' : Type := @label int_builtins.

#[local] Abbreviation Room := (@Room int_builtins).
#[local] Abbreviation MRoomState := (@MRoomState int_builtins).
#[local] Abbreviation room_at := (@room_at int_builtins).
#[local] Abbreviation step := (@step int_builtins).
#[local] Abbreviation reachable := (@reachable int_builtins).
#[local] Abbreviation arrives := (@arrives int_builtins).
#[local] Abbreviation orderly := (@orderly int_builtins).
#[local] Abbreviation reports_nonneg := (@reports_nonneg int_builtins).

Definition hello (sid : string) : label' := Connect sid.

Definition join (sid roomId : string) : label' :=
  Recv sid (JoinRoom (Some roomId) None 0).

Definition seek (sid : string) (t : Z) : label' :=
  Recv sid (Seek (B := int_builtins) (Some t)).

Definition load (sid id : string) : label' :=
  Recv sid (LoadVideo (Some id)).

Definition bye (sid : string) : label' := Recv sid Disconnect.

Example valid_id : isValidYouTubeId (Some "dQw4w9WgXcQ") = true.
Proof. reflexivity. Qed.

Example valid_id_symbols : isValidYouTubeId (Some "a_b-c_d-e_Z") = true.
Proof. reflexivity. Qed.

Example invalid_id_short : isValidYouTubeId (Some "dQw4w9WgXc") = false.
Proof. reflexivity. Qed.

Example invalid_id_long : isValidYouTubeId (Some "dQw4w9WgXcQQ") = false.
Proof. reflexivity. Qed.

Example invalid_id_char : isValidYouTubeId (Some "dQw4w9WgXc!") = false.
Proof. reflexivity. Qed.

Example invalid_id_absent : isValidYouTubeId None = false.
Proof. reflexivity. Qed.

(** The scenarios of the specification, one after the other. *)
Example alice_joins :
  let w := run init [hello "A"] in
  step w (join "A" "r1")
  = (next w (join "A" "r1"),
     [(ToRoom "r1", MUsers 1);
      (ToSocket "A", MRoomState None 0 false (Some "A") [])])
  /\ room_at (next w (join "A" "r1")) "r1"
     = Some (Some (Room "" 0 false 1 "A" [])).
Proof. split; vm_compute; reflexivity. Qed.

Example alice_loads :
  let w := run init [hello "A"; join "A" "r1"] in
  (step w (load "A" "dQw4w9WgXcQ")).2 = [(ToRoom "r1", MLoadVideo "dQw4w9WgXcQ")]
  /\ room_at (next w (load "A" "dQw4w9WgXcQ")) "r1"
     = Some (Some (Room "dQw4w9WgXcQ" 0 false 1 "A" [])).
Proof. split; vm_compute; reflexivity. Qed.

Example bob_joins_and_is_refused :
  let w := run init [hello "A"; hello "B"; join "A" "r1";
                     load "A" "dQw4w9WgXcQ"; join "B" "r1"] in
  room_at w "r1" = Some (Some (Room "dQw4w9WgXcQ" 0 false 2 "A" []))
  /\ step w (load "B" "xxxxxxxxxxx")
     = (w, [(ToSocket "B", MError "Only moderator can load video")]).
Proof. split; vm_compute; reflexivity. Qed.

Example alice_leaves_then_bob :
  let w := run init [hello "A"; hello "B"; join "A" "r1"; join "B" "r1"] in
  (step w (bye "A")).2 = [(ToRoom "r1", MUsers 1)]
  /\ room_at (next w (bye "A")) "r1" = Some (Some (Room "" 0 false 1 "B" []))
  /\ (step (next w (bye "A")) (bye "B")).2 = []
  /\ room_at (run w [bye "A"; bye "B"]) "r1"
     = Some (Some (Room "" 0 false 0 "" []))
  /\ ttl_at (run w [bye "A"; bye "B"]) "r1" = Some 86400.
Proof. repeat split; vm_compute; reflexivity. Qed.

(** A room that has a member and no moderator (a record rewritten behind
    the handlers' back, as two handlers racing on it can leave it): the
    member's load-video goes through. *)
Example member_loads_without_moderator :
  let w := put_room (run init [hello "B";
                               join "B" "r1"]) "r1" (Room "" 0 false 1 "" []) in
  binding w "B" = Some "r1"
  /\ room_at w "r1" = Some (Some (Room "" 0 false 1 "" []))
  /\ step w (load "B" "dQw4w9WgXcQ")
     = (put_room w "r1" (Room "dQw4w9WgXcQ" 0 false 1 "" []),
        [(ToRoom "r1", MLoadVideo "dQw4w9WgXcQ")])
  /\ step w (load "B" "bad id")
     = (w, [(ToSocket "B", MError "Invalid YouTube id")]).
Proof. repeat split; vm_compute; reflexivity. Qed.

(** *** Where the code departs from the specification *)

Lemma allowed_reachable ok `{!forall w l, Decision (ok w l)} (ls : list label') :
  bool_decide (allowed ok init ls) = true -> reachable ok (run init ls).
Proof.
  intros Hok. apply reachable_run; [constructor|].
  by apply bool_decide_eq_true in Hok.
Qed.

(** C1 fails: a connection that sends join-room twice counts twice; when
    it closes, the room is left with a count of 1, no socket and no
    moderator. *)
Lemma rejoin_breaks_room_invariant :
  let w := run init [hello "A"; join "A" "r1"; join "A" "r1"; bye "A"] in
  reachable arrives w
  /\ room_at w "r1" = Some (Some (Room "" 0 false 1 "" []))
  /\ ~ ("" = "" <-> 1 = 0).
Proof.
  split; [|split].
  - apply (allowed_reachable arrives). vm_compute. reflexivity.
  - vm_compute. reflexivity.
  - intros [H _]. specialize (H eq_refl). discriminate H.
Qed.

(** C4 fails on the same run: the moderator closes, the count that results
    is 1, and the new moderatorId is the empty string. *)
Lemma rejoin_leaves_no_moderator :
  let w := run init [hello "A"; join "A" "r1"; join "A" "r1"] in
  let w' := next w (bye "A") in
  reachable arrives w
  /\ live w "A"
  /\ binding w "A" = Some "r1"
  /\ room_at w "r1" = Some (Some (Room "" 0 false 2 "A" []))
  /\ room_at w' "r1" = Some (Some (Room "" 0 false 1 "" [])).
Proof.
  repeat split.
  - apply (allowed_reachable arrives). vm_compute. reflexivity.
  - discriminate.
  - apply (bool_decide_unpack _). vm_compute. exact I.
Qed.

(** C1 and C4 fail in another way in a room that goes by the id of an open
    connection. S is in that room from the moment it opened. When A, who
    joined it alone, closes, fetchSockets finds S there: the record is left
    with a count of 0 and S for moderator. When A and B joined it and A,
    the moderator, closes, the first socket of the room is S again, which
    is bound to no room. Neither run is an orderly one. *)
Example room_named_by_an_id :
  let ls := [hello "S"; hello "A"; join "A" "S"; bye "A"] in
  let w := run init ls in
  reachable arrives w
  /\ room_at w "S" = Some (Some (Room "" 0 false 0 "S" []))
  /\ bool_decide (allowed orderly init ls) = false.
Proof.
  repeat split. apply (allowed_reachable arrives). vm_compute. reflexivity.
Qed.

Example room_named_by_an_id_moderator :
  let ls := [hello "S"; hello "A"; hello "B"; join "A" "S"; join "B" "S"] in
  let w := run init ls in
  let w' := next w (bye "A") in
  reachable arrives w
  /\ members w "S" = ["S"; "A"; "B"]
  /\ room_at w "S" = Some (Some (Room "" 0 false 2 "A" []))
  /\ room_at w' "S" = Some (Some (Room "" 0 false 1 "S" []))
  /\ binding w' "S" = None
  /\ bool_decide (allowed orderly init ls) = false.
Proof.
  repeat split. apply (allowed_reachable arrives). vm_compute. reflexivity.
Qed.

(** C6 fails: an empty chat text from a bound socket gets no answer at
    all. *)
Lemma chat_empty_gets_no_error :
  let w := run init [hello "A"; join "A" "r1"] in
  binding w "A" = Some "r1"
  /\ step w (Recv "A" (Chat (Some ""))) = (w, [])
  /\ ~ (exists msg, (ToSocket "A", MError msg) ∈ (step w (Recv "A" (Chat (Some "")))).2).
Proof.
  split; [reflexivity|]. split; [vm_compute; reflexivity|].
  intros [msg H]. vm_compute in H. inversion H.
Qed.

(** C7 fails: a second join-room moves the binding to the room it names
    and counts the connection there, and a second join-room to the same
    room counts it twice. *)
Lemma second_join_rebinds :
  let w := run init [hello "A"; join "A" "r1"] in
  binding w "A" = Some "r1"
  /\ binding (next w (join "A" "r2")) "A" = Some "r2"
  /\ room_at w "r2" = Some None
  /\ room_at (next w (join "A" "r2")) "r2" = Some (Some (Room "" 0 false 1 "A" []))
  /\ room_at w "r1" = Some (Some (Room "" 0 false 1 "A" []))
  /\ room_at (next w (join "A" "r1")) "r1" = Some (Some (Room "" 0 false 2 "A" [])).
Proof. repeat split. Qed.

(** C8 fails: seek with a negative time stores it. *)
Lemma seek_stores_negative_position :
  let w := run init [hello "A"; join "A" "r1"; seek "A" (-5)] in
  reachable arrives w
  /\ room_at w "r1" = Some (Some (Room "" (-5) false 1 "A" []))
  /\ nonneg (Builtins := int_builtins) (-5) = false.
Proof.
  repeat split. apply (allowed_reachable arrives). vm_compute. reflexivity.
Qed.

(** *** The theorems at work *)

Lemma room_invariant_orderly_at_r1 :
  let w := run init [hello "A"; hello "B"; join "A" "r1"; join "B" "r1";
                     bye "A"] in
  reachable orderly w
  /\ room_at w "r1" = Some (Some (Room "" 0 false 1 "B" []))
  /\ 0 <= 1 /\ ("B" = "" <-> 1 = 0) /\ (0 < 1 -> connected_in w "r1" "B").
Proof.
  set (w := run init [hello "A"; hello "B"; join "A" "r1"; join "B" "r1";
                      bye "A"]).
  assert (Hw : reachable orderly w)
    by (apply (allowed_reachable orderly); vm_compute; reflexivity).
  assert (Hr : room_at w "r1" = Some (Some (Room "" 0 false 1 "B" [])))
    by (vm_compute; reflexivity).
  split; [exact Hw|]. split; [exact Hr|].
  exact (room_invariant_orderly w "r1" _ Hw Hr).
Defined.

Lemma moderator_replaced_orderly_at_r1 :
  let w := run init [hello "A"; hello "B"; join "A" "r1"; join "B" "r1"] in
  let w' := next w (bye "A") in
  reachable orderly w
  /\ live w "A"
  /\ binding w "A" = Some "r1"
  /\ room_at w "r1" = Some (Some (Room "" 0 false 2 "A" []))
  /\ exists r',
       room_at w' "r1" = Some (Some r')
       /\ membersCount r' = 2 - 1
       /\ (0 < membersCount r' ->
           moderatorId r' <> "" /\ moderatorId r' <> "A"
           /\ connected_in w' "r1" (moderatorId r')).
Proof.
  set (w := run init [hello "A"; hello "B"; join "A" "r1"; join "B" "r1"]).
  assert (Hw : reachable orderly w)
    by (apply (allowed_reachable orderly); vm_compute; reflexivity).
  assert (Hl : live w "A")
    by (apply (bool_decide_unpack _); vm_compute; exact I).
  assert (Hb : binding w "A" = Some "r1") by reflexivity.
  assert (Hr : room_at w "r1" = Some (Some (Room "" 0 false 2 "A" [])))
    by (vm_compute; reflexivity).
  split; [exact Hw|]. split; [exact Hl|]. split; [exact Hb|]. split; [exact Hr|].
  exact (moderator_replaced_orderly w "A" "r1" _ Hw Hl Hb Hr eq_refl).
Defined.

Lemma position_nonneg_when_reported_so_at_r1 :
  let w := run init [hello "A"; join "A" "r1"; seek "A" 42] in
  reachable reports_nonneg w
  /\ room_at w "r1" = Some (Some (Room "" 42 false 1 "A" []))
  /\ nonneg (Builtins := int_builtins) 42 = true.
Proof.
  set (w := run init [hello "A"; join "A" "r1"; seek "A" 42]).
  assert (Hw : reachable reports_nonneg w)
    by (apply (allowed_reachable reports_nonneg); vm_compute; reflexivity).
  assert (Hr : room_at w "r1" = Some (Some (Room "" 42 false 1 "A" [])))
    by (vm_compute; reflexivity).
  split; [exact Hw|]. split; [exact Hr|].
  exact (position_nonneg_when_reported_so w "r1" _ Hw Hr).
Defined.

Lemma join_room_last_bind_wins_at_r2 :
  let w := run init [hello "A"; join "A" "r1"] in
  let res := step w (join "A" "r2") in
  reachable arrives w
  /\ binding res.1 "A" = Some "r2"
  /\ (exists r', room_at res.1 "r2" = Some (Some r') /\ membersCount r' = 0 + 1)
  /\ (forall roomId', roomId' <> "r2" -> room_at res.1 roomId' = room_at w roomId').
Proof.
  set (w := run init [hello "A"; join "A" "r1"]).
  assert (Hw : reachable arrives w)
    by (apply (allowed_reachable arrives); vm_compute; reflexivity).
  split; [exact Hw|].
  exact (join_room_last_bind_wins w "A" (Some "r2") None 0 Hw).
Defined.

Lemma load_video_accepted_at_r1 :
  let w := run init [hello "A"; join "A" "r1"; seek "A" 42] in
  let res := step w (load "A" "dQw4w9WgXcQ") in
  binding w "A" = Some "r1"
  /\ room_at w "r1" = Some (Some (Room "" 42 false 1 "A" []))
  /\ isValidYouTubeId (Some "dQw4w9WgXcQ") = true
  /\ room_at res.1 "r1" = Some (Some (Room "dQw4w9WgXcQ" 0 false 1 "A" []))
  /\ res.2 = [(ToRoom "r1", MLoadVideo "dQw4w9WgXcQ")].
Proof.
  set (w := run init [hello "A"; join "A" "r1"; seek "A" 42]).
  assert (Hb : binding w "A" = Some "r1") by reflexivity.
  assert (Hr : room_at w "r1" = Some (Some (Room "" 42 false 1 "A" [])))
    by (vm_compute; reflexivity).
  split; [exact Hb|]. split; [exact Hr|]. split; [reflexivity|].
  exact (load_video_accepted w "A" "dQw4w9WgXcQ" "r1" _ Hb Hr
           (or_intror eq_refl) eq_refl).
Defined.

Lemma load_video_moderator_gate_at_r1 :
  let w := run init [hello "A"; hello "B"; join "A" "r1"; join "B" "r1"] in
  let res := step w (load "B" "dQw4w9WgXcQ") in
  binding w "B" = Some "r1"
  /\ room_at w "r1" = Some (Some (Room "" 0 false 2 "A" []))
  /\ "B" <> "A"
  /\ (res.2 = [(ToSocket "B", MError "Only moderator can load video")]
        <-> "A" <> "")
  /\ (isValidYouTubeId (Some "dQw4w9WgXcQ") = true ->
      (exists msg, res.2 = [(ToSocket "B", MError msg)]) <-> "A" <> "")
  /\ (forall msg, res.2 = [(ToSocket "B", MError msg)] -> res.1 = w)
  /\ ("A" = "" -> isValidYouTubeId (Some "dQw4w9WgXcQ") = true ->
      room_at res.1 "r1" = Some (Some (Room "dQw4w9WgXcQ" 0 false 2 "A" []))
      /\ res.2 = [(ToRoom "r1", MLoadVideo "dQw4w9WgXcQ")]).
Proof.
  set (w := run init [hello "A"; hello "B"; join "A" "r1"; join "B" "r1"]).
  assert (Hb : binding w "B" = Some "r1") by reflexivity.
  assert (Hr : room_at w "r1" = Some (Some (Room "" 0 false 2 "A" [])))
    by (vm_compute; reflexivity).
  assert (Hs : "B" <> "A") by discriminate.
  split; [exact Hb|]. split; [exact Hr|]. split; [exact Hs|].
  exact (load_video_moderator_gate w "B" (Some "dQw4w9WgXcQ") "r1" _ Hb Hr Hs).
Defined.

Lemma load_video_malformed_at_r1 :
  let w := run init [hello "A"; join "A" "r1"] in
  binding w "A" = Some "r1"
  /\ room_at w "r1" = Some (Some (Room "" 0 false 1 "A" []))
  /\ isValidYouTubeId (Some "not-an-id") = false
  /\ exists msg,
       step w (load "A" "not-an-id") = (w, [(ToSocket "A", MError msg)]).
Proof.
  set (w := run init [hello "A"; join "A" "r1"]).
  assert (Hb : binding w "A" = Some "r1") by reflexivity.
  assert (Hr : room_at w "r1" = Some (Some (Room "" 0 false 1 "A" [])))
    by (vm_compute; reflexivity).
  split; [exact Hb|]. split; [exact Hr|]. split; [reflexivity|].
  exact (load_video_malformed w "A" (Some "not-an-id") "r1" _ Hb Hr eq_refl).
Defined.

Lemma chat_empty_dropped_at_r1 :
  let w := run init [hello "A"; join "A" "r1"] in
  truthy (Some "") = false
  /\ step w (Recv "A" (Chat (Some ""))) = (w, []).
Proof.
  split; [reflexivity|].
  exact (chat_empty_dropped (B := int_builtins) _ "A" (Some "") eq_refl).
Defined.

End Scenario.

(** * The client: ids and chat lines *)

Module ClientFacts.
Import Client.

Lemma eleven_is_id (s id : string) : eleven s = Some id -> is_id id = true.
Proof.
  unfold eleven. destruct (is_id (substring 0 11 s)) eqn:E; [|discriminate].
  by intros [= <-].
Qed.

Lemma match_here_is_id (ps : list string) (s id : string) :
  match_here ps s = Some id -> is_id id = true.
Proof.
  induction ps as [|p ps IH]; [discriminate|]. cbn.
  destruct (strip p s) as [rest|]; [|exact IH].
  destruct (eleven rest) as [id'|] eqn:E; [|exact IH].
  intros [= <-]. by eapply eleven_is_id.
Qed.

Lemma search_is_id (s id : string) : search s = Some id -> is_id id = true.
Proof.
  induction s as [|c s IH]; [discriminate|]. cbn [search].
  destruct (match_here prefixes (String c s)) as [id'|] eqn:E; [|exact IH].
  intros [= <-]. by eapply match_here_is_id.
Qed.

Lemma extractYouTubeID_is_id (s id : string) :
  extractYouTubeID s = Some id -> is_id id = true.
Proof.
  unfold extractYouTubeID. destruct s as [|c s]; [discriminate|].
  destruct (is_id (String c s)) eqn:E.
  - by intros [= <-].
  - apply search_is_id.
Qed.

(** X18. What the load button sends, the server does not refuse as malformed:
    the event carries an id that isValidYouTubeId accepts. *)
Theorem load_click_sends_valid_id `{B : Builtins} (input : string) (e : event) :
  load_click input = Some e ->
  exists id, e = LoadVideo (Some id) /\ isValidYouTubeId (Some id) = true.
Proof.
  unfold load_click. destruct (extractYouTubeID input) as [id|] eqn:E; [|discriminate].
  intros [= <-]. exists id. split; [reflexivity|].
  exact (extractYouTubeID_is_id _ _ E).
Qed.

Lemma strip_app (p x : string) : strip p (p ++ x) = Some x.
Proof.
  induction p as [|a p IH]; [by destruct x|].
  simpl. by rewrite decide_True.
Qed.

Lemma substring_app (id rest : string) :
  substring 0 (String.length id) (id ++ rest) = id.
Proof.
  induction id as [|a id IH]; simpl; [by destruct rest|]. by rewrite IH.
Qed.

Lemma is_id_length (id : string) : is_id id = true -> String.length id = 11%nat.
Proof.
  unfold is_id. intros [E _]%andb_prop. by apply Nat.eqb_eq.
Qed.

Lemma eleven_app (id rest : string) :
  is_id id = true -> eleven (id ++ rest) = Some id.
Proof.
  intros Hid. unfold eleven.
  rewrite <- (is_id_length id Hid), substring_app, Hid. reflexivity.
Qed.

Lemma match_here_found (ps : list string) (p id rest : string) :
  p ∈ ps -> is_id id = true ->
  is_Some (match_here ps (p ++ id ++ rest)).
Proof.
  intros Hp Hid. induction ps as [|q ps IH]; [by apply elem_of_nil in Hp|].
  cbn [match_here]. destruct (strip q (p ++ id ++ rest)) as [r|] eqn:Es.
  - destruct (eleven r) as [id'|] eqn:Ee; [by eexists|].
    apply elem_of_cons in Hp as [->|Hp]; [|by apply IH].
    rewrite strip_app in Es. injection Es as <-.
    rewrite eleven_app in Ee by done. discriminate Ee.
  - apply elem_of_cons in Hp as [->|Hp]; [|by apply IH].
    rewrite strip_app in Es. discriminate Es.
Qed.

Lemma search_found (pre p id rest : string) :
  p ∈ prefixes -> is_id id = true ->
  is_Some (search (pre ++ p ++ id ++ rest)).
Proof.
  intros Hp Hid. induction pre as [|c pre IH].
  - change (EmptyString ++ p ++ id ++ rest) with (p ++ id ++ rest).
    pose proof (match_here_found prefixes p id rest Hp Hid) as [id' E].
    destruct (p ++ id ++ rest) as [|c s]; [discriminate E|].
    cbn [search]. rewrite E. by eexists.
  - change (String c pre ++ p ++ id ++ rest)
      with (String c (pre ++ p ++ id ++ rest)).
    cbn [search]. by destruct (match_here prefixes _).
Qed.

(** X19. Whatever stands before and after, a text in which one of the four
    prefixes is followed by an id yields an id, and one the server
    accepts. *)
Theorem extractYouTubeID_finds_an_id (pre p id rest : string) :
  p ∈ prefixes ->
  isValidYouTubeId (Some id) = true ->
  exists id',
    extractYouTubeID (pre ++ p ++ id ++ rest) = Some id'
    /\ isValidYouTubeId (Some id') = true.
Proof.
  intros Hp Hid. change (is_id id = true) in Hid.
  destruct (search_found pre p id rest Hp Hid) as [id' E].
  unfold extractYouTubeID.
  destruct (pre ++ p ++ id ++ rest) as [|c s] eqn:Es; [discriminate E|].
  destruct (is_id (String c s)) eqn:Ei.
  - by exists (String c s).
  - exists id'. split; [exact E|]. by apply (search_is_id _ _ E).
Qed.

Lemma substring_length_le (n : nat) (s : string) :
  (String.length (substring 0 n s) <= String.length s)%nat.
Proof.
  revert s. induction n as [|n IH]; intros [|c s]; cbn; try lia.
  specialize (IH s). lia.
Qed.

Lemma eleven_length (s id : string) :
  eleven s = Some id -> (11 <= String.length s)%nat.
Proof.
  unfold eleven. destruct (is_id (substring 0 11 s)) eqn:E; [|discriminate].
  intros _. apply is_id_length in E. pose proof (substring_length_le 11 s). lia.
Qed.

Lemma strip_length (p s rest : string) :
  strip p s = Some rest -> (String.length rest <= String.length s)%nat.
Proof.
  revert s. induction p as [|a p IH]; intros s; cbn.
  - destruct s; intros [= <-]; lia.
  - destruct s as [|b s]; [discriminate|]. destruct (decide (a = b)); [|discriminate].
    intros E%IH. cbn. lia.
Qed.

Lemma match_here_length (ps : list string) (s id : string) :
  match_here ps s = Some id -> (11 <= String.length s)%nat.
Proof.
  induction ps as [|p ps IH]; [discriminate|]. cbn.
  destruct (strip p s) as [rest|] eqn:Es; [|exact IH].
  destruct (eleven rest) as [id'|] eqn:E; [|exact IH].
  intros _. apply eleven_length in E. apply strip_length in Es. lia.
Qed.

Lemma search_length (s id : string) :
  search s = Some id -> (11 <= String.length s)%nat.
Proof.
  induction s as [|c s IH]; [discriminate|]. cbn [search].
  destruct (match_here prefixes (String c s)) as [id'|] eqn:E.
  - intros _. by apply match_here_length in E.
  - intros H%IH. cbn. lia.
Qed.

(** X20. No id comes out of a text of fewer than eleven characters, the empty
    text included. *)
Theorem extractYouTubeID_short (s : string) :
  (String.length s < 11)%nat -> extractYouTubeID s = None.
Proof.
  intros Hlen. unfold extractYouTubeID. destruct s as [|c s]; [reflexivity|].
  destruct (is_id (String c s)) eqn:E.
  - apply is_id_length in E. lia.
  - destruct (search (String c s)) as [id|] eqn:Es; [|reflexivity].
    apply search_length in Es. lia.
Qed.

End ClientFacts.

(** * More of the server *)

Section Records.
Context `{B : Builtins}.
Implicit Types (w : world) (st r : room) (roomId sid s : string).

(** The room an event is about: the one it names, for join-room; the one
    its sender is bound to, for the others. *)
Definition target w sid (e : event) : string :=
  match e with
  | JoinRoom rid _ _ => str_or rid ""
  | _ => default "" (binding w sid)
  end.

(** [w'] is [w] after some writes of the record of [roomId], and of no
    other key. *)
Inductive writes_at roomId w : world -> Prop :=
| writes_none w' : redis w' = redis w -> writes_at roomId w w'
| writes_put w' st : writes_at roomId w w' -> writes_at roomId w (put_room w' roomId st).

Lemma handle_writes_at w sid e :
  writes_at (target w sid e) w (next w (Recv sid e)).
Proof.
  destruct e as [rid name rnd|v|t|t|t|text| |]; unfold next; cbn [step target];
    [cbn [handle] .. | ].
  - destruct (truthy_false_or_Some rid) as [E | (roomId & -> & N)].
    + rewrite on_join_room_reject by done. by constructor.
    + rewrite on_join_room_run, str_or_Some by done. cbn zeta.
      destruct (room_at w roomId) as [[r|]|]; cbn [fst snd].
      * by do 2 constructor.
      * by do 3 constructor.
      * by constructor.
  - rewrite on_load_video_run.
    destruct (binding w sid) as [roomId|]; [|by constructor].
    destruct (found w roomId) as [r|]; [|by constructor].
    destruct (load_refusal sid v r); [by constructor|]. by do 2 constructor.
  - rewrite on_play_run.
    destruct (binding w sid) as [roomId|]; [|by constructor].
    destruct (found w roomId) as [r|]; [|by constructor]. by do 2 constructor.
  - rewrite on_pause_run.
    destruct (binding w sid) as [roomId|]; [|by constructor].
    destruct (found w roomId) as [r|]; [|by constructor]. by do 2 constructor.
  - rewrite on_seek_run.
    destruct (binding w sid) as [roomId|]; [|by constructor].
    destruct (found w roomId) as [r|]; [|by constructor]. by do 2 constructor.
  - pose proof (on_chat_world sid text w) as E.
    destruct (on_chat sid text w) as [[res w'] out]. cbn in E |- *. subst w'.
    by constructor.
  - rewrite on_request_sync_run.
    destruct (binding w sid) as [roomId|]; [|by constructor].
    destruct (found w roomId) as [r|]; by constructor.
  - rewrite disconnect_run. cbn zeta.
    destruct (binding w sid) as [roomId|]; [|by constructor].
    destruct (found w roomId) as [r|]; [|by constructor]. by do 2 constructor.
Qed.

Lemma ttl_at_ext w w' roomId :
  redis w !! (ROOM_PREFIX ++ roomId) = redis w' !! (ROOM_PREFIX ++ roomId) ->
  ttl_at w roomId = ttl_at w' roomId.
Proof. unfold ttl_at. by intros ->. Qed.

Lemma writes_at_other roomId w w' roomId' :
  writes_at roomId w w' -> roomId' <> roomId ->
  room_at w' roomId' = room_at w roomId' /\ ttl_at w' roomId' = ttl_at w roomId'.
Proof.
  intros Hw N. induction Hw as [w' E|w' st _ [IH1 IH2]].
  - split; [apply room_at_ext | apply ttl_at_ext]; by rewrite E.
  - by rewrite room_at_put_other, ttl_at_put_other.
Qed.

(** X4. An event reads and writes one room: the record and the time to live of
    every other room are after the event what they were before. *)
Theorem event_touches_one_room w sid e roomId :
  roomId <> target w sid e ->
  room_at (next w (Recv sid e)) roomId = room_at w roomId
  /\ ttl_at (next w (Recv sid e)) roomId = ttl_at w roomId.
Proof.
  intros N. apply (writes_at_other (target w sid e)); [|exact N].
  apply handle_writes_at.
Qed.

(** The retention policy of setRoom, on one record. *)
Definition retained w roomId : Prop :=
  forall r, room_at w roomId = Some (Some r) ->
            ttl_at w roomId
            = if decide (membersCount r = 0) then Some (60 * 60 * 24) else None.

Lemma retained_writes_at roomId w w' roomId' :
  writes_at roomId w w' -> retained w roomId' -> retained w' roomId'.
Proof.
  intros Hw Hr. induction Hw as [w' E|w' st _ IH].
  - intros r. rewrite (room_at_ext w' w), (ttl_at_ext w' w) by by rewrite E.
    apply Hr.
  - intros r. destruct (decide (roomId' = roomId)) as [->|N].
    + rewrite room_at_put_same, ttl_at_put_same. by intros [= <-].
    + rewrite room_at_put_other, ttl_at_put_other by done. apply IH.
Qed.

Lemma expire_key_cases key w roomId :
  (room_at (expire_key key w) roomId = room_at w roomId
   /\ ttl_at (expire_key key w) roomId = ttl_at w roomId)
  \/ room_at (expire_key key w) roomId = Some None.
Proof.
  unfold expire_key.
  destruct (redis w !! key) as [[h [t|]]|] eqn:E; auto.
  destruct (decide (key = ROOM_PREFIX ++ roomId)) as [->|N].
  - right. unfold room_at, getRoom, bind, redis_hgetall. cbn [with_redis redis].
    rewrite lookup_delete_eq. by rewrite decide_True.
  - left. split; [apply room_at_ext | apply ttl_at_ext]; cbn [with_redis redis];
      by rewrite lookup_delete_ne.
Qed.

Lemma retained_reachable ok w roomId : reachable ok w -> retained w roomId.
Proof.
  induction 1 as [|w l _ IH _]; [by intros r|].
  destruct l as [sid e|key|sid].
  - by eapply retained_writes_at, IH; apply handle_writes_at.
  - intros r. change (next w (Expire key)) with (expire_key key w).
    destruct (expire_key_cases key w roomId) as [[-> ->] | ->]; [apply IH | done].
  - by eapply (retained_writes_at roomId), IH; constructor.
Qed.

(** X3. Empty rooms expire and only they: on a running server, whatever the
    clients send, the record of a room carries a time to live of 24 hours
    when its member count is 0 and none otherwise, so that the expiry of its
    key leaves a room with a non-zero count in place. *)
Theorem empty_rooms_expire_and_only_they ok w roomId r :
  reachable ok w ->
  room_at w roomId = Some (Some r) ->
  ttl_at w roomId = (if decide (membersCount r = 0) then Some 86400 else None)
  /\ (membersCount r <> 0 -> expire_key (ROOM_PREFIX ++ roomId) w = w).
Proof.
  intros Hw Hr. pose proof (retained_reachable ok w roomId Hw r Hr) as Ht.
  split; [exact Ht|]. intros N. rewrite decide_False in Ht by done.
  unfold expire_key. unfold ttl_at in Ht.
  by destruct (redis w !! (ROOM_PREFIX ++ roomId)) as [[h [t|]]|].
Qed.

(** *** What every record satisfies *)

(** A property of the fresh record that every change a handler makes to a
    record keeps holds of every record of a running server. *)
Lemma record_invariant (Q : room -> Prop) :
  (forall sid, Q (initial_room sid)) ->
  (forall r sid, Q r -> Q (admitted r sid)) ->
  (forall r sid others, Q r -> Q (departed r sid others)) ->
  (forall r v, isValidYouTubeId v = true -> Q r ->
               Q (set_video r (default "" v) zero false)) ->
  (forall r t p, Q r -> Q (set_playing (set_time r (num_or_0 t)) p)) ->
  (forall r t, Q r -> Q (set_time r (num_or_0 t))) ->
  forall ok w, reachable ok w ->
  forall roomId r, room_at w roomId = Some (Some r) -> Q r.
Proof.
  intros Qinit Qjoin Qleave Qload Qplay Qseek ok w Hw.
  induction Hw as [|w l _ IH _]; [by intros rid r|].
  assert (Hput : forall w1 roomId st,
             (forall rid r, room_at w1 rid = Some (Some r) -> Q r) -> Q st ->
             forall rid r, room_at (put_room w1 roomId st) rid = Some (Some r) -> Q r).
  { intros w1 roomId st H1 Hst rid r. destruct (decide (rid = roomId)) as [->|N].
    - rewrite room_at_put_same. by intros [= <-].
    - rewrite room_at_put_other by done. apply H1. }
  assert (Hfound : forall roomId r, found w roomId = Some r -> Q r).
  { intros roomId r Hf. apply (IH roomId). unfold found in Hf.
    by destruct (room_at w roomId) as [[r0|]|]; simplify_eq. }
  destruct l as [sid e|key|sid].
  3:{ intros rid r. rewrite room_at_connect. apply IH. }
  2:{ intros rid r. change (next w (Expire key)) with (expire_key key w).
      destruct (expire_key_cases key w rid) as [[-> _] | ->]; [apply IH | done]. }
  destruct e as [rid name rnd|v|t|t|t|text| |]; unfold next; cbn [step];
    [cbn [handle] .. | ].
  - destruct (truthy_false_or_Some rid) as [E | (roomId & -> & N)].
    + by rewrite on_join_room_reject.
    + rewrite on_join_room_run by done. cbn zeta.
      set (w1 := joined w sid roomId _).
      assert (Hw1 : forall rid r, room_at w1 rid = Some (Some r) -> Q r)
        by (intros rid r; unfold w1; rewrite room_at_joined; apply IH).
      destruct (room_at w roomId) as [[r|]|] eqn:E; cbn [fst snd]; [| |done].
      * apply Hput; [done|]. apply Qjoin. by apply (IH roomId).
      * apply Hput; [apply Hput; [done|apply Qinit] | apply Qjoin, Qinit].
  - rewrite on_load_video_run.
    destruct (binding w sid) as [roomId|]; [|done].
    destruct (found w roomId) as [r|] eqn:Hf; [|done].
    unfold load_refusal. destruct (truthy _ && _); [done|].
    destruct (isValidYouTubeId v) eqn:Hv; [|done]. cbn [negb fst snd].
    apply Hput; [done|]. apply Qload; [done|]. by apply (Hfound roomId).
  - rewrite on_play_run.
    destruct (binding w sid) as [roomId|]; [|done].
    destruct (found w roomId) as [r|] eqn:Hf; [|done].
    apply Hput; [done|]. apply Qplay. by apply (Hfound roomId).
  - rewrite on_pause_run.
    destruct (binding w sid) as [roomId|]; [|done].
    destruct (found w roomId) as [r|] eqn:Hf; [|done].
    apply Hput; [done|]. apply Qplay. by apply (Hfound roomId).
  - rewrite on_seek_run.
    destruct (binding w sid) as [roomId|]; [|done].
    destruct (found w roomId) as [r|] eqn:Hf; [|done].
    apply Hput; [done|]. apply Qseek. by apply (Hfound roomId).
  - pose proof (on_chat_world sid text w) as E.
    destruct (on_chat sid text w) as [[res w'] out]. cbn in E |- *. by subst w'.
  - rewrite on_request_sync_run.
    destruct (binding w sid) as [roomId|]; [|done].
    by destruct (found w roomId) as [r|].
  - rewrite disconnect_run. cbn zeta. set (w1 := vacated w sid).
    assert (Hw1 : forall rid r, room_at w1 rid = Some (Some r) -> Q r)
      by (intros rid r; unfold w1; rewrite room_at_vacated; apply IH).
    destruct (binding w sid) as [roomId|]; [|done].
    destruct (found w roomId) as [r|] eqn:Hf; [|done]. cbn [fst snd].
    apply Hput; [done|]. apply Qleave. by apply (Hfound roomId).
Qed.

Lemma admitted_fields r sid :
  videoId (admitted r sid) = videoId r /\ playing (admitted r sid) = playing r
  /\ queue (admitted r sid) = queue r.
Proof. unfold admitted. by destruct (negb _). Qed.

Lemma departed_fields r sid others :
  videoId (departed r sid others) = videoId r
  /\ playing (departed r sid others) = playing r
  /\ queue (departed r sid others) = queue r.
Proof. unfold departed. by destruct (bool_decide _). Qed.

(** X2. Whatever the clients send, join-room twice or out of turn included, no
    record of a running server has a negative member count. *)
Theorem membersCount_never_negative ok w roomId r :
  reachable ok w -> room_at w roomId = Some (Some r) -> 0 <= membersCount r.
Proof.
  intros Hw Hr.
  refine (record_invariant (fun r => 0 <= membersCount r)
            _ _ _ _ _ _ ok w Hw roomId r Hr); try done.
  - intros r0 sid H. rewrite membersCount_admitted. lia.
  - intros r0 sid others _. rewrite membersCount_departed. lia.
Qed.

(** X6. The videoId of a record is empty or an id that isValidYouTubeId
    accepts: nothing else is ever stored. *)
Theorem stored_videoId_empty_or_valid ok w roomId r :
  reachable ok w -> room_at w roomId = Some (Some r) ->
  videoId r = "" \/ isValidYouTubeId (Some (videoId r)) = true.
Proof.
  intros Hw Hr.
  refine (record_invariant
            (fun r => videoId r = "" \/ isValidYouTubeId (Some (videoId r)) = true)
            _ _ _ _ _ _ ok w Hw roomId r Hr); try done.
  - by left.
  - intros r0 sid H. by destruct (admitted_fields r0 sid) as (-> & _).
  - intros r0 sid others H. by destruct (departed_fields r0 sid others) as (-> & _).
  - intros r0 [id|] Hv _; [by right | discriminate Hv].
Qed.

(** X7. No handler puts anything in the queue: it is the empty array in every
    record of a running server. *)
Theorem queue_stays_empty ok w roomId r :
  reachable ok w -> room_at w roomId = Some (Some r) -> queue r = [].
Proof.
  intros Hw Hr.
  refine (record_invariant (fun r => queue r = [])
            _ _ _ _ _ _ ok w Hw roomId r Hr); try done.
  - intros r0 sid H. by destruct (admitted_fields r0 sid) as (_ & _ & ->).
  - intros r0 sid others H.
    by destruct (departed_fields r0 sid others) as (_ & _ & ->).
Qed.

(** X1. On a server whose clients send no join-room from a bound connection,
    and where no room goes by the id of a connection, the member count of
    a record is the number of sockets in the room, which are, each once,
    the open connections bound to it. *)
Theorem membersCount_counts_the_connected w roomId r :
  reachable orderly w ->
  room_at w roomId = Some (Some r) ->
  membersCount r = Z.of_nat (length (members w roomId))
  /\ NoDup (members w roomId)
  /\ (forall s, s ∈ members w roomId <-> connected_in w roomId s).
Proof.
  intros Hw Hr. destruct (consistent_reachable w Hw) as [Hs Hrooms].
  specialize (Hrooms roomId). unfold room_consistent in Hrooms.
  rewrite Hr in Hrooms. destruct Hrooms as (Hno & Hc & _).
  split; [exact Hc|]. split; [apply Hs|]. intros s. split.
  - intros Hin. apply (members_connected w Hs); [exact Hin|].
    by intros ->.
  - intros [[_ Hopen] Hb]. by apply (connected_member w Hs).
Qed.

(** X11. On a server whose clients send no join-room from a bound
    connection, and where no room goes by the id of a connection, when the
    only member of a room leaves: the count becomes 0 and the moderatorId
    empty, the record is kept with a time to live of 24 hours, and nothing
    is broadcast. *)
Theorem last_member_leaves w sid roomId :
  reachable orderly w ->
  live w sid ->
  binding w sid = Some roomId ->
  members w roomId = [sid] ->
  let res := step w (Recv sid Disconnect) in
  res.2 = []
  /\ (exists r', room_at res.1 roomId = Some (Some r')
                 /\ membersCount r' = 0 /\ moderatorId r' = "")
  /\ ttl_at res.1 roomId = Some 86400
  /\ members res.1 roomId = [].
Proof.
  intros Hw Hl Hb Hm res. subst res.
  destruct (consistent_reachable w Hw) as [Hs Hrooms].
  assert (Hne : sid <> roomId) by (by apply (bound_apart w Hs)).
  assert (Hin : sid ∈ members w roomId) by (rewrite Hm; left).
  destruct (room_consistent_record w roomId sid (Hrooms roomId) Hin Hne)
    as [r Hr].
  specialize (Hrooms roomId). unfold room_consistent in Hrooms.
  rewrite Hr in Hrooms. destruct Hrooms as (_ & Hc & _ & Hmod & _).
  rewrite Hm in Hc, Hmod. cbn in Hc.
  assert (Er : moderatorId r = sid).
  { specialize (Hmod ltac:(done)). by apply list_elem_of_singleton in Hmod. }
  assert (Hv : members (vacated w sid) roomId = []).
  { rewrite members_vacated, Hm. cbn. by rewrite decide_False by (by intros ?). }
  cbn [step]. rewrite disconnect_run. cbn zeta.
  rewrite Hb, (found_Some _ _ _ Hr), Hv.
  assert (Ec : membersCount (departed r sid []) = 0).
  { rewrite membersCount_departed, Hc. reflexivity. }
  assert (Em : moderatorId (departed r sid []) = "").
  { rewrite moderatorId_departed. by rewrite decide_True. }
  rewrite decide_True by exact Ec. cbn [fst snd].
  split; [reflexivity|]. split; [|split].
  - eexists. split; [apply room_at_put_same|]. by split.
  - rewrite ttl_at_put_same. by rewrite decide_True.
  - by rewrite members_put_room.
Qed.

End Records.

(** ** Joining, chatting, playing *)

Section Conversations.
Context `{B : Builtins}.
Implicit Types (w : world) (st r : room) (roomId sid s : string).

Lemma or_null_Some (s : string) : s <> "" -> or_null s = Some s.
Proof. by destruct s. Qed.

(** X8. The first join of a room that has no record creates it: the joiner is
    its moderator, the count is 1, the record has no time to live, the room
    is told of one user and the joiner gets the state of an empty room. *)
Theorem first_join_creates_room w sid roomId (name : option string) (rnd : Z) :
  roomId <> "" -> sid <> "" ->
  room_at w roomId = Some None ->
  let res := step w (Recv sid (JoinRoom (Some roomId) name rnd)) in
  room_at res.1 roomId = Some (Some (Room "" zero false 1 sid []))
  /\ ttl_at res.1 roomId = None
  /\ binding res.1 sid = Some roomId
  /\ res.2 = [(ToRoom roomId, MUsers 1);
              (ToSocket sid, MRoomState None zero false (Some sid) [])].
Proof.
  intros Hr Hs Hnone res. subst res. cbn [step handle].
  rewrite on_join_room_run by done. cbn zeta. rewrite Hnone. cbn [fst snd].
  assert (Ea : admitted (initial_room sid) sid = Room "" zero false 1 sid []).
  { unfold admitted, initial_room. cbn [set_membersCount moderatorId membersCount].
    by rewrite truthy_Some. }
  rewrite Ea. split; [apply room_at_put_same|]. split; [|split].
  - rewrite ttl_at_put_same. by rewrite decide_False.
  - by rewrite !binding_put_room, binding_joined, decide_True.
  - unfold room_state. cbn [videoId time playing moderatorId queue membersCount].
    rewrite num_or_0_Some, (or_null_Some sid) by done. reflexivity.
Qed.

(** X9. On a running server, a join of a room that has a moderator
    changes the count and nothing else of the record: the moderator stays,
    and the joiner is sent the video, the position and the play flag as
    they are. The count is a whole number the handlers wrote; it is taken
    below 2^53, where the sum the code makes of it and 1 is exact. *)
Theorem later_join_keeps_the_room w sid roomId (name : option string) (rnd : Z) r :
  reachable arrives w ->
  roomId <> "" ->
  room_at w roomId = Some (Some r) ->
  moderatorId r <> "" ->
  membersCount r < 2 ^ 53 ->
  let res := step w (Recv sid (JoinRoom (Some roomId) name rnd)) in
  let r' := set_membersCount r (membersCount r + 1) in
  room_at res.1 roomId = Some (Some r')
  /\ res.2 = [(ToRoom roomId, MUsers (membersCount r + 1));
              (ToSocket sid, room_state r')].
Proof.
  intros _ Hr Hroom Hm _ res r'. subst res r'. cbn [step handle].
  rewrite on_join_room_run by done. cbn zeta. rewrite Hroom. cbn [fst snd].
  assert (Ea : admitted r sid = set_membersCount r (membersCount r + 1)).
  { unfold admitted. cbn [set_membersCount moderatorId].
    by rewrite int_or_0, truthy_Some. }
  rewrite Ea. split; [apply room_at_put_same | reflexivity].
Qed.

(** X10. ensureRoomExists gives back the record of the room and leaves the
    store with that record in it. A room that has a record keeps it and
    nothing is written; a room that has none gets the empty record with the
    creator for moderator, which expires in 24 hours unless written again,
    and no other room is touched. *)
Theorem ensureRoomExists_ensures w roomId sid :
  room_at w roomId <> None ->
  exists r w',
    ensureRoomExists roomId sid w = (Some r, w', [])
    /\ room_at w' roomId = Some (Some r)
    /\ (forall r0, room_at w roomId = Some (Some r0) -> r = r0 /\ w' = w)
    /\ (room_at w roomId = Some None ->
        r = Room "" zero false 0 sid []
        /\ ttl_at w' roomId = Some 86400
        /\ forall roomId', roomId' <> roomId ->
                           room_at w' roomId' = room_at w roomId').
Proof.
  intros Hread. unfold ensureRoomExists, bind. rewrite getRoom_run.
  destruct (room_at w roomId) as [[r|]|] eqn:E; [| |done].
  - exists r, w. split; [reflexivity|]. split; [done|].
    split; [by intros r0 [= <-] | discriminate].
  - rewrite setRoom_run. eexists _, _. split; [reflexivity|].
    split; [apply room_at_put_same|]. split; [done|]. intros _.
    split; [reflexivity|]. split.
    + rewrite ttl_at_put_same. by rewrite decide_True.
    + intros rid N. by apply room_at_put_other.
Qed.

Lemma data_after_join w sid roomId (name : option string) (rnd : Z) :
  roomId <> "" ->
  data (next w (Recv sid (JoinRoom (Some roomId) name rnd))) !! sid
  = Some (SockData (str_or name ("User" ++ String_int (rnd + 1000))) roomId).
Proof.
  intros Hr. unfold next. cbn [step handle].
  rewrite on_join_room_run by done. cbn zeta.
  destruct (room_at w roomId) as [[r|]|]; cbn [fst snd];
    rewrite ?data_put_room; apply lookup_insert_eq.
Qed.

Lemma on_chat_run sid (text : option string) w :
  on_chat sid text w =
  match data w !! sid with
  | Some d =>
      if truthy (Some (data_roomId d)) && truthy text
      then (Some tt, w, [(ToRoom (data_roomId d),
                          MChat (str_or (Some (data_name d)) "Anon")
                                (str_or text ""))])
      else (None, w, [])
  | None => (None, w, [])
  end.
Proof.
  unfold on_chat, bind, socket_data, emit, stop. cbn beta iota.
  destruct (data w !! sid) as [[nm rid]|]; cbn; [|reflexivity].
  destruct rid as [|c rid]; cbn; [reflexivity|].
  destruct (truthy text); cbn; [|reflexivity]. by destruct nm.
Qed.

(** X15. A chat line goes to the sender's room, the sender included, under the
    name the sender gave on joining, or under User and the number drawn
    then when it gave none; the server state is left as it was. *)
Theorem chat_carries_the_join_name w sid roomId (name : option string) (rnd : Z)
    (text : string) :
  roomId <> "" -> text <> "" ->
  let w' := next w (Recv sid (JoinRoom (Some roomId) name rnd)) in
  step w' (Recv sid (Chat (Some text)))
  = (w', [(ToRoom roomId,
           MChat (str_or name ("User" ++ String_int (rnd + 1000))) text)]).
Proof.
  intros Hr Ht w'. cbn [step handle]. rewrite on_chat_run.
  unfold w'. rewrite data_after_join by done. cbn [data_roomId data_name].
  rewrite !truthy_Some by done. cbn [andb].
  rewrite (str_or_Some text) by done. do 4 f_equal.
  apply str_or_Some. destruct name as [[|c n]|]; discriminate.
Qed.

(** The record a playback event leaves of [r]. *)
Definition playback (e : event) r : option room :=
  match e with
  | Play t => Some (set_playing (set_time r (num_or_0 t)) true)
  | Pause t => Some (set_playing (set_time r (num_or_0 t)) false)
  | Seek t => Some (set_time r (num_or_0 t))
  | _ => None
  end.

Lemma next_playback w sid e roomId r r' :
  binding w sid = Some roomId -> found w roomId = Some r ->
  playback e r = Some r' ->
  next w (Recv sid e) = put_room w roomId r'.
Proof.
  intros Hb Hf He. unfold next.
  destruct e as [| |t|t|t| | |]; try discriminate He; cbn [step handle];
    injection He as <-.
  - by rewrite on_play_run, Hb, Hf.
  - by rewrite on_pause_run, Hb, Hf.
  - by rewrite on_seek_run, Hb, Hf.
Qed.

(** X14. A request-sync after a play, pause or seek, from any socket of the same
    room, is answered, to the requester alone, with the position of that
    event and the play flag it left, the video, the moderator and the
    queue being those of the room; the request changes nothing. *)
Theorem resync_shows_last_playback w sid1 sid2 roomId r e r' :
  binding w sid1 = Some roomId ->
  binding w sid2 = Some roomId ->
  room_at w roomId = Some (Some r) ->
  playback e r = Some r' ->
  let w' := next w (Recv sid1 e) in
  step w' (Recv sid2 RequestSync)
  = (w', [(ToSocket sid2,
           MRoomState (or_null (videoId r)) (time r') (playing r')
                      (or_null (moderatorId r)) (queue r))]).
Proof.
  intros Hb1 Hb2 Hr He w'. unfold w'.
  rewrite (next_playback w sid1 e roomId r r' Hb1 (found_Some _ _ _ Hr) He).
  cbn [step handle]. rewrite on_request_sync_run, binding_put_room, Hb2.
  rewrite found_put_same. cbn. do 3 f_equal. unfold room_state.
  rewrite num_or_0_Some.
  destruct e as [| |t|t|t| | |]; try discriminate He; by injection He as <-.
Qed.

Lemma payload_of_None st st' (f : string) :
  payload_of st !! f = None -> payload_of st' !! f = None.
Proof.
  unfold payload_of. rewrite !lookup_insert.
  repeat case_decide; done.
Qed.

(** A write of a record overwrites the one before it. *)
Lemma put_room_overwrite w roomId st st' :
  put_room (put_room w roomId st) roomId st' = put_room w roomId st'.
Proof.
  rewrite (put_room_unfold (put_room w roomId st)).
  rewrite adapter_put_room, data_put_room, closed_put_room.
  unfold old_fields at 1. rewrite redis_put_room, lookup_insert_eq.
  cbn [fields]. rewrite insert_insert_eq.
  rewrite (put_room_unfold w roomId st'). do 3 f_equal.
  apply map_eq. intros f. rewrite !lookup_union.
  destruct (payload_of st' !! f) as [x|] eqn:E'.
  - by destruct (payload_of st !! f), (old_fields w _ !! f).
  - rewrite (payload_of_None st' st f E').
    by destruct (old_fields w _ !! f).
Qed.

(** X13. The later of two playback events on a room is the one that counts: a
    play or a pause, which set the position and the play flag, leave the
    server as if the play, pause or seek before them, from the same or
    another socket of the room, had not been. *)
Theorem last_playback_wins w sid1 sid2 e1 e2 (t : option number) :
  binding w sid1 = binding w sid2 ->
  (exists t1, e1 = Play t1 \/ e1 = Pause t1 \/ e1 = Seek t1) ->
  e2 = Play t \/ e2 = Pause t ->
  next (next w (Recv sid1 e1)) (Recv sid2 e2) = next w (Recv sid2 e2).
Proof.
  intros Hb [t1 H1] H2.
  destruct (binding w sid2) as [roomId|] eqn:Hb2.
  2:{ assert (E1 : next w (Recv sid1 e1) = w).
      { unfold next. destruct H1 as [-> | [-> | ->]]; cbn [step handle];
          by rewrite ?on_play_run, ?on_pause_run, ?on_seek_run, Hb. }
      by rewrite E1. }
  destruct (found w roomId) as [r|] eqn:Hf.
  2:{ assert (E1 : next w (Recv sid1 e1) = w).
      { unfold next. destruct H1 as [-> | [-> | ->]]; cbn [step handle];
          by rewrite ?on_play_run, ?on_pause_run, ?on_seek_run, Hb, Hf. }
      by rewrite E1. }
  assert (exists r1, playback e1 r = Some r1
                     /\ videoId r1 = videoId r /\ membersCount r1 = membersCount r
                     /\ moderatorId r1 = moderatorId r /\ queue r1 = queue r)
    as (r1 & He1 & Hv & Hc & Hm & Hq)
    by (destruct H1 as [-> | [-> | ->]]; by eexists).
  rewrite (next_playback w sid1 e1 roomId r r1 Hb Hf He1).
  assert (Hb' : binding (put_room w roomId r1) sid2 = Some roomId)
    by by rewrite binding_put_room.
  assert (Hf' : found (put_room w roomId r1) roomId = Some r1)
    by apply found_put_same.
  destruct H2 as [-> | ->].
  - rewrite (next_playback _ sid2 (Play t) roomId r1 _ Hb' Hf' eq_refl).
    rewrite (next_playback w sid2 (Play t) roomId r _ Hb2 Hf eq_refl).
    rewrite put_room_overwrite. f_equal. unfold set_playing, set_time. cbn.
    by rewrite Hv, Hc, Hm, Hq.
  - rewrite (next_playback _ sid2 (Pause t) roomId r1 _ Hb' Hf' eq_refl).
    rewrite (next_playback w sid2 (Pause t) roomId r _ Hb2 Hf eq_refl).
    rewrite put_room_overwrite. f_equal. unfold set_playing, set_time. cbn.
    by rewrite Hv, Hc, Hm, Hq.
Qed.

(** X16. An event other than join-room from a socket that is bound to no room is
    dropped without an answer: the server is left as it was, but for the
    closing of the connection on disconnect. *)
Theorem unbound_events_are_dropped w sid e :
  binding w sid = None ->
  match e with
  | JoinRoom _ _ _ => True
  | Disconnect => step w (Recv sid e) = (vacated w sid, [])
  | _ => step w (Recv sid e) = (w, [])
  end.
Proof.
  intros Hb. destruct e as [rid name rnd|v|t|t|t|text| |]; [done|..]; cbn [step];
    [cbn [handle] .. | ].
  - by rewrite on_load_video_run, Hb.
  - by rewrite on_play_run, Hb.
  - by rewrite on_pause_run, Hb.
  - by rewrite on_seek_run, Hb.
  - rewrite on_chat_run. unfold binding in Hb.
    destruct (data w !! sid) as [[nm [|c rid]]|]; try done.
  - by rewrite on_request_sync_run, Hb.
  - by rewrite disconnect_run, Hb.
Qed.

(** X17. What getRoom makes of a hash left with none of the six fields, or with
    empty ones: null when the hash has no field at all, and else the
    record of an empty room. *)
Theorem getRoom_defaults w roomId (h : gmap string string) (t : option Z) :
  redis w !! (ROOM_PREFIX ++ roomId) = Some (Entry h t) ->
  (forall f, f ∈ ["videoId"; "time"; "playing"; "membersCount"; "moderatorId";
                  "queue"] -> truthy (h !! f) = false) ->
  room_at w roomId
  = if decide (h = ∅) then Some None else Some (Some (Room "" zero false 0 "" [])).
Proof.
  intros E Hf. unfold room_at, getRoom, bind, redis_hgetall. rewrite E.
  cbn [fields]. destruct (decide (h = ∅)) as [->|N]; [reflexivity|].
  assert (Hs : forall f, truthy (h !! f) = false -> str_or (h !! f) "" = "").
  { intros f. by destruct (h !! f) as [[|c x]|]. }
  unfold lookup_or.
  rewrite !Hf by (repeat first [apply list_elem_of_here | apply list_elem_of_further]).
  rewrite !Hs by (apply Hf;
                  repeat first [apply list_elem_of_here | apply list_elem_of_further]).
  cbn. do 3 f_equal. apply bool_decide_eq_false. intros Ep.
  specialize (Hf "playing"). rewrite Ep in Hf. discriminate Hf.
  repeat first [apply list_elem_of_here | apply list_elem_of_further].
Qed.

(** Where a message of each kind may go, for an event of [sid] that leaves
    it bound to [room]. *)
Definition addressed sid (room : option string) (p : packet) : Prop :=
  match p.2 with
  | MError _ | MRoomState _ _ _ _ _ => p.1 = ToSocket sid
  | MPlay _ | MPause _ | MSeek _ =>
      exists roomId, room = Some roomId /\ p.1 = ToRoomExcept roomId sid
  | MUsers _ | MLoadVideo _ | MChat _ _ =>
      exists roomId, room = Some roomId /\ p.1 = ToRoom roomId
  end.

Lemma binding_vacated w sid s : binding (vacated w sid) s = binding w s.
Proof. reflexivity. Qed.

(** X5. Every message the server sends for an event goes to the sender or to
    the room the sender is bound to, never to another room: errors and
    room states to the sender alone; play, pause and seek to the room
    without the sender; users, load-video and chat to the whole room. *)
Theorem messages_stay_in_the_room w sid e :
  Forall (addressed sid (binding (next w (Recv sid e)) sid))
         (step w (Recv sid e)).2.
Proof.
  unfold next.
  destruct e as [rid name rnd|v|t|t|t|text| |]; cbn [step]; [cbn [handle] .. | ].
  - destruct (truthy_false_or_Some rid) as [E | (roomId & -> & N)].
    + rewrite on_join_room_reject by done. by repeat constructor.
    + rewrite on_join_room_run by done. cbn zeta.
      destruct (room_at w roomId) as [[r|]|]; cbn [fst snd]; [| |constructor].
      * rewrite binding_put_room, binding_joined, decide_True by done.
        repeat constructor. by exists roomId.
      * rewrite !binding_put_room, binding_joined, decide_True by done.
        repeat constructor. by exists roomId.
  - rewrite on_load_video_run.
    destruct (binding w sid) as [roomId|] eqn:Hb; [|constructor].
    destruct (found w roomId) as [r|]; [|constructor].
    destruct (load_refusal sid v r); cbn [fst snd]; [by repeat constructor|].
    rewrite binding_put_room, Hb. repeat constructor. by exists roomId.
  - rewrite on_play_run.
    destruct (binding w sid) as [roomId|] eqn:Hb; [|constructor].
    destruct (found w roomId) as [r|]; [|constructor]. cbn [fst snd].
    rewrite binding_put_room, Hb. repeat constructor. by exists roomId.
  - rewrite on_pause_run.
    destruct (binding w sid) as [roomId|] eqn:Hb; [|constructor].
    destruct (found w roomId) as [r|]; [|constructor]. cbn [fst snd].
    rewrite binding_put_room, Hb. repeat constructor. by exists roomId.
  - rewrite on_seek_run.
    destruct (binding w sid) as [roomId|] eqn:Hb; [|constructor].
    destruct (found w roomId) as [r|]; [|constructor]. cbn [fst snd].
    rewrite binding_put_room, Hb. repeat constructor. by exists roomId.
  - rewrite on_chat_run. unfold binding.
    destruct (data w !! sid) as [[nm rid]|] eqn:Ed; [|constructor].
    cbn [data_roomId data_name].
    destruct rid as [|c rid]; [constructor|].
    destruct (truthy text); cbn; [|constructor].
    repeat constructor. rewrite Ed. by eexists.
  - rewrite on_request_sync_run.
    destruct (binding w sid) as [roomId|] eqn:Hb; [|constructor].
    destruct (found w roomId) as [r|]; by repeat constructor.
  - rewrite disconnect_run. cbn zeta.
    destruct (binding w sid) as [roomId|] eqn:Hb; [|constructor].
    destruct (found w roomId) as [r|]; [|constructor]. cbn [fst snd].
    rewrite binding_put_room, binding_vacated, Hb.
    destruct (decide _); repeat constructor. by exists roomId.
Qed.

(** X12. On a running server, when a member that is not the moderator
    leaves, the moderator stays: the record changes in its count alone,
    which goes down by one and not below 0. The count is a whole number
    the handlers wrote; it is taken below 2^53, where the difference the
    code makes of it and 1 is exact. *)
Theorem member_leaves_moderator_stays w sid roomId r :
  reachable arrives w ->
  binding w sid = Some roomId ->
  room_at w roomId = Some (Some r) ->
  moderatorId r <> sid ->
  membersCount r < 2 ^ 53 ->
  room_at (next w (Recv sid Disconnect)) roomId
  = Some (Some (set_membersCount r (Z.max 0 (int_or (membersCount r) 1 - 1)))).
Proof.
  intros _ Hb Hr Hm _. unfold next. cbn [step]. rewrite disconnect_run. cbn zeta.
  rewrite Hb, (found_Some _ _ _ Hr). cbn [fst snd]. rewrite room_at_put_same.
  unfold departed. cbn [set_membersCount moderatorId].
  by rewrite bool_decide_false.
Qed.

End Conversations.

(** ** The HTML of a chat line *)

Module HtmlFacts.
Import Client.

(** How often a character stands in a text. *)
Fixpoint occurrences (c : ascii) (s : string) : nat :=
  match s with
  | EmptyString => 0
  | String d s' => (if decide (d = c) then 1 else 0) + occurrences c s'
  end.

(** The characters that open or close a tag or an attribute value. *)
Definition markup (c : ascii) : Prop :=
  c = "<"%char \/ c = ">"%char \/ c = "034"%char \/ c = "'"%char.

Lemma occurrences_app (c : ascii) (s1 s2 : string) :
  occurrences c (s1 ++ s2) = (occurrences c s1 + occurrences c s2)%nat.
Proof. induction s1 as [|d s1 IH]; simpl; [reflexivity|]. rewrite IH. lia. Qed.

Lemma entity_cases (c : ascii) :
  (entity c = None /\ ~ markup c /\ c <> "&"%char)
  \/ (c = "&"%char /\ entity c = Some "&amp;")
  \/ (c = "<"%char /\ entity c = Some "&lt;")
  \/ (c = ">"%char /\ entity c = Some "&gt;")
  \/ (c = "034"%char /\ entity c = Some "&quot;")
  \/ (c = "'"%char /\ entity c = Some "&#39;").
Proof.
  unfold entity, markup. repeat case_decide; subst; auto 10.
  left. repeat split; [tauto | tauto].
Qed.

Lemma entity_no_markup (c x : ascii) (e : string) :
  entity c = Some e -> markup x -> occurrences x e = 0%nat.
Proof.
  intros He Hx.
  destruct (entity_cases c) as [(E & _)|[(_ & E)|[(_ & E)|[(_ & E)|[(_ & E)|(_ & E)]]]]];
    rewrite E in He; simplify_eq;
    destruct Hx as [->|[->|[->| ->]]]; reflexivity.
Qed.

Lemma escapeHtml_no_markup (x : ascii) (s : string) :
  markup x -> occurrences x (escapeHtml s) = 0%nat.
Proof.
  intros Hx. induction s as [|c s IH]; [reflexivity|]. cbn [escapeHtml].
  destruct (entity c) as [e|] eqn:E.
  - by rewrite occurrences_app, (entity_no_markup c x e E Hx), IH.
  - cbn [occurrences]. rewrite IH.
    destruct (entity_cases c) as [(_ & N & _)|[(_ & E')|[(_ & E')|[(_ & E')|[(_ & E')|(_ & E')]]]]];
      [|congruence ..].
    rewrite decide_False; [reflexivity|]. by intros ->.
Qed.

(** X21. The escaped text holds no angle bracket, no quote and no apostrophe,
    whatever the text was. *)
Theorem escapeHtml_leaves_no_markup (s : string) :
  occurrences "<" (escapeHtml s) = 0%nat
  /\ occurrences ">" (escapeHtml s) = 0%nat
  /\ occurrences "034" (escapeHtml s) = 0%nat
  /\ occurrences "'" (escapeHtml s) = 0%nat.
Proof. repeat split; apply escapeHtml_no_markup; unfold markup; tauto. Qed.

(** X22. A chat line has the angle brackets of its own two tags and no other:
    neither the name nor the text of a message can open a tag. *)
Theorem chat_line_has_its_own_tags_only (from text : string) :
  occurrences "<" (chat_line from text) = 2%nat
  /\ occurrences ">" (chat_line from text) = 2%nat.
Proof.
  unfold chat_line.
  assert (L : occurrences "<" (escapeHtml from) = 0%nat
              /\ occurrences "<" (escapeHtml text) = 0%nat
              /\ occurrences ">" (escapeHtml from) = 0%nat
              /\ occurrences ">" (escapeHtml text) = 0%nat)
    by (repeat split; apply escapeHtml_no_markup; unfold markup; tauto).
  destruct L as (L1 & L2 & L3 & L4).
  rewrite !occurrences_app, L1, L2, L3, L4. split; reflexivity.
Qed.

Lemma append_inv_head (e x y : string) : e ++ x = e ++ y -> x = y.
Proof. induction e as [|c e IH]; simpl; [done|]. intros [= H]. by apply IH. Qed.

(** X23. Escaping keeps texts apart: two texts with the same escaped form are
    the same text. *)
Theorem escapeHtml_injective (s1 s2 : string) :
  escapeHtml s1 = escapeHtml s2 -> s1 = s2.
Proof.
  revert s2. induction s1 as [|c1 s1 IH]; intros [|c2 s2].
  - done.
  - cbn [escapeHtml].
    destruct (entity_cases c2) as [(E & _)|[(_ & E)|[(_ & E)|[(_ & E)|[(_ & E)|(_ & E)]]]]];
      rewrite E; discriminate.
  - cbn [escapeHtml].
    destruct (entity_cases c1) as [(E & _)|[(_ & E)|[(_ & E)|[(_ & E)|[(_ & E)|(_ & E)]]]]];
      rewrite E; discriminate.
  - cbn [escapeHtml].
    destruct (entity_cases c1)
      as [(E1 & _ & N1)|[(-> & E1)|[(-> & E1)|[(-> & E1)|[(-> & E1)|(-> & E1)]]]]];
      destruct (entity_cases c2)
        as [(E2 & _ & N2)|[(-> & E2)|[(-> & E2)|[(-> & E2)|[(-> & E2)|(-> & E2)]]]]];
      rewrite ?E1, ?E2; intros H; cbv [String.append] in H; simplify_eq;
      try (f_equal; by apply IH).
Qed.

End HtmlFacts.

(** * More of the server and the client at work *)

Module Examples.
Import Client.

#[local] Abbreviation Room := (@Room int_builtins).
#[local] Abbreviation MRoomState := (@MRoomState int_builtins).
#[local] Abbreviation room_at := (@room_at int_builtins).
#[local] Abbreviation step := (@step int_builtins).
#[local] Abbreviation next := (@next int_builtins).
#[local] Abbreviation reachable := (@reachable int_builtins).
#[local] Abbreviation arrives := (@arrives int_builtins).
#[local] Abbreviation orderly := (@orderly int_builtins).
#[local] Abbreviation label' := (@label int_builtins).
#[local] Abbreviation event' := (@event int_builtins).

Definition hello (sid : string) : label' := Connect sid.

Definition join (sid roomId : string) : label' :=
  Recv sid (JoinRoom (Some roomId) None 0).

Definition named (sid roomId name : string) : label' :=
  Recv sid (JoinRoom (Some roomId) (Some name) 0).

Definition load (sid id : string) : label' :=
  Recv sid (LoadVideo (Some id)).

Definition bye (sid : string) : label' := Recv sid Disconnect.

Definition ev_play (t : Z) : event' := Play (B := int_builtins) (Some t).

Definition ev_pause (t : Z) : event' := Pause (B := int_builtins) (Some t).

Definition ev_seek (t : Z) : event' := Seek (B := int_builtins) (Some t).

Lemma run_reachable ok `{!forall w l, Decision (ok w l)} (ls : list label') :
  bool_decide (allowed ok init ls) = true -> reachable ok (run init ls).
Proof.
  intros Hok. apply reachable_run; [constructor|].
  by apply bool_decide_eq_true in Hok.
Qed.

Example extract_watch_url :
  extractYouTubeID "https://www.youtube.com/watch?v=dQw4w9WgXcQ&t=10"
  = Some "dQw4w9WgXcQ".
Proof. reflexivity. Qed.

Example extract_short_url :
  extractYouTubeID "https://youtu.be/dQw4w9WgXcQ" = Some "dQw4w9WgXcQ".
Proof. reflexivity. Qed.

Example extract_embed_url :
  extractYouTubeID "https://www.youtube.com/embed/dQw4w9WgXcQ?rel=0"
  = Some "dQw4w9WgXcQ".
Proof. reflexivity. Qed.

Example extract_second_try :
  extractYouTubeID "rev=short&v=dQw4w9WgXcQ" = Some "dQw4w9WgXcQ".
Proof. reflexivity. Qed.

Example extract_nothing :
  extractYouTubeID "https://example.org/watch?video=1" = None.
Proof. reflexivity. Qed.

Example escape_script :
  escapeHtml "<script>alert('x')</script> & co"
  = "&lt;script&gt;alert(&#39;x&#39;)&lt;/script&gt; &amp; co".
Proof. reflexivity. Qed.

Example chat_line_of_alice :
  chat_line "Al<i>ce" "hi & bye" = "<b>Al&lt;i&gt;ce:</b> hi &amp; bye".
Proof. reflexivity. Qed.

Lemma load_click_sends_valid_id_example :
  load_click (B := int_builtins) "https://youtu.be/dQw4w9WgXcQ"
  = Some (LoadVideo (Some "dQw4w9WgXcQ"))
  /\ exists id,
       LoadVideo (B := int_builtins) (Some "dQw4w9WgXcQ") = LoadVideo (Some id)
       /\ isValidYouTubeId (Some id) = true.
Proof.
  split; [reflexivity|].
  exact (ClientFacts.load_click_sends_valid_id (B := int_builtins)
           "https://youtu.be/dQw4w9WgXcQ" _ eq_refl).
Defined.

Lemma extractYouTubeID_finds_an_id_example :
  "v=" ∈ prefixes
  /\ isValidYouTubeId (Some "dQw4w9WgXcQ") = true
  /\ exists id',
       extractYouTubeID ("https://www.youtube.com/watch?" ++ "v=" ++ "dQw4w9WgXcQ" ++ "&t=10")
       = Some id'
       /\ isValidYouTubeId (Some id') = true.
Proof.
  assert (Hp : "v=" ∈ prefixes) by apply list_elem_of_here.
  split; [exact Hp|]. split; [reflexivity|].
  exact (ClientFacts.extractYouTubeID_finds_an_id
           "https://www.youtube.com/watch?" "v=" "dQw4w9WgXcQ" "&t=10" Hp eq_refl).
Defined.

Lemma extractYouTubeID_short_example :
  (String.length "v=abc" < 11)%nat /\ extractYouTubeID "v=abc" = None.
Proof.
  assert (H : (String.length "v=abc" < 11)%nat) by (cbn; lia).
  split; [exact H|]. exact (ClientFacts.extractYouTubeID_short "v=abc" H).
Defined.

Lemma escapeHtml_injective_example :
  escapeHtml "a<b" = escapeHtml "a<b" /\ "a<b" = "a<b".
Proof.
  split; [reflexivity|].
  exact (HtmlFacts.escapeHtml_injective "a<b" "a<b" eq_refl).
Defined.

Lemma event_touches_one_room_example :
  let w := run init [hello "A"; hello "B"; join "A" "r1"; join "B" "r2"] in
  "r2" <> target w "A" (ev_seek 7)
  /\ room_at (next w (Recv "A" (ev_seek 7))) "r2" = room_at w "r2"
  /\ ttl_at (next w (Recv "A" (ev_seek 7))) "r2" = ttl_at w "r2".
Proof.
  set (w := run init [hello "A"; hello "B"; join "A" "r1"; join "B" "r2"]).
  assert (N : "r2" <> target w "A" (ev_seek 7))
    by discriminate.
  split; [exact N|].
  exact (event_touches_one_room w "A" (ev_seek 7) "r2" N).
Defined.

Lemma empty_rooms_expire_and_only_they_example :
  let w := run init [hello "A"; hello "B"; join "A" "r1"; join "B" "r2";
                     bye "B"] in
  reachable arrives w
  /\ room_at w "r2" = Some (Some (Room "" 0 false 0 "" []))
  /\ ttl_at w "r2" = Some 86400
  /\ (0 <> 0 -> expire_key (ROOM_PREFIX ++ "r2") w = w).
Proof.
  set (w := run init [hello "A"; hello "B"; join "A" "r1"; join "B" "r2";
                      bye "B"]).
  assert (Hw : reachable arrives w)
    by (apply (run_reachable arrives); vm_compute; reflexivity).
  assert (Hr : room_at w "r2" = Some (Some (Room "" 0 false 0 "" [])))
    by (vm_compute; reflexivity).
  split; [exact Hw|]. split; [exact Hr|].
  exact (empty_rooms_expire_and_only_they arrives w "r2" _ Hw Hr).
Defined.

Lemma membersCount_never_negative_example :
  let w := run init [hello "A"; hello "B"; join "A" "r1"; join "A" "r1";
                     bye "A"; join "B" "r1"; bye "B"] in
  reachable arrives w
  /\ room_at w "r1" = Some (Some (Room "" 0 false 1 "" []))
  /\ 0 <= 1.
Proof.
  set (w := run init [hello "A"; hello "B"; join "A" "r1"; join "A" "r1";
                      bye "A"; join "B" "r1"; bye "B"]).
  assert (Hw : reachable arrives w)
    by (apply (run_reachable arrives); vm_compute; reflexivity).
  assert (Hr : room_at w "r1" = Some (Some (Room "" 0 false 1 "" [])))
    by (vm_compute; reflexivity).
  split; [exact Hw|]. split; [exact Hr|].
  exact (membersCount_never_negative arrives w "r1" _ Hw Hr).
Defined.

Lemma stored_videoId_empty_or_valid_example :
  let w := run init [hello "A"; join "A" "r1"; load "A" "dQw4w9WgXcQ";
                     load "A" "oops"] in
  reachable arrives w
  /\ room_at w "r1" = Some (Some (Room "dQw4w9WgXcQ" 0 false 1 "A" []))
  /\ ("dQw4w9WgXcQ" = "" \/ isValidYouTubeId (Some "dQw4w9WgXcQ") = true).
Proof.
  set (w := run init [hello "A"; join "A" "r1"; load "A" "dQw4w9WgXcQ";
                      load "A" "oops"]).
  assert (Hw : reachable arrives w)
    by (apply (run_reachable arrives); vm_compute; reflexivity).
  assert (Hr : room_at w "r1" = Some (Some (Room "dQw4w9WgXcQ" 0 false 1 "A" [])))
    by (vm_compute; reflexivity).
  split; [exact Hw|]. split; [exact Hr|].
  exact (stored_videoId_empty_or_valid arrives w "r1" _ Hw Hr).
Defined.

Lemma queue_stays_empty_example :
  let w := run init [hello "A"; hello "B"; join "A" "r1";
                     load "A" "dQw4w9WgXcQ"; join "B" "r1"] in
  reachable arrives w
  /\ room_at w "r1" = Some (Some (Room "dQw4w9WgXcQ" 0 false 2 "A" []))
  /\ @nil string = [].
Proof.
  set (w := run init [hello "A"; hello "B"; join "A" "r1";
                      load "A" "dQw4w9WgXcQ"; join "B" "r1"]).
  assert (Hw : reachable arrives w)
    by (apply (run_reachable arrives); vm_compute; reflexivity).
  assert (Hr : room_at w "r1" = Some (Some (Room "dQw4w9WgXcQ" 0 false 2 "A" [])))
    by (vm_compute; reflexivity).
  split; [exact Hw|]. split; [exact Hr|].
  exact (queue_stays_empty arrives w "r1" _ Hw Hr).
Defined.

Lemma membersCount_counts_the_connected_example :
  let w := run init [hello "A"; hello "B"; hello "C"; join "A" "r1";
                     join "B" "r1"; join "C" "r1"; bye "B"] in
  reachable orderly w
  /\ room_at w "r1" = Some (Some (Room "" 0 false 2 "A" []))
  /\ 2 = Z.of_nat (length (members w "r1"))
  /\ NoDup (members w "r1")
  /\ (forall s, s ∈ members w "r1" <-> connected_in w "r1" s).
Proof.
  set (w := run init [hello "A"; hello "B"; hello "C"; join "A" "r1";
                      join "B" "r1"; join "C" "r1"; bye "B"]).
  assert (Hw : reachable orderly w)
    by (apply (run_reachable orderly); vm_compute; reflexivity).
  assert (Hr : room_at w "r1" = Some (Some (Room "" 0 false 2 "A" [])))
    by (vm_compute; reflexivity).
  split; [exact Hw|]. split; [exact Hr|].
  exact (membersCount_counts_the_connected w "r1" _ Hw Hr).
Defined.

Lemma last_member_leaves_example :
  let w := run init [hello "A"; hello "B"; join "A" "r1"; join "B" "r1";
                     bye "A"] in
  let res := step w (bye "B") in
  reachable orderly w
  /\ live w "B"
  /\ binding w "B" = Some "r1"
  /\ members w "r1" = ["B"]
  /\ res.2 = []
  /\ (exists r', room_at res.1 "r1" = Some (Some r')
                 /\ membersCount r' = 0 /\ moderatorId r' = "")
  /\ ttl_at res.1 "r1" = Some 86400
  /\ members res.1 "r1" = [].
Proof.
  set (w := run init [hello "A"; hello "B"; join "A" "r1"; join "B" "r1";
                      bye "A"]).
  assert (Hw : reachable orderly w)
    by (apply (run_reachable orderly); vm_compute; reflexivity).
  assert (Hl : live w "B")
    by (apply (bool_decide_unpack _); vm_compute; exact I).
  assert (Hb : binding w "B" = Some "r1") by reflexivity.
  assert (Hm : members w "r1" = ["B"]) by reflexivity.
  split; [exact Hw|]. split; [exact Hl|]. split; [exact Hb|]. split; [exact Hm|].
  exact (last_member_leaves w "B" "r1" Hw Hl Hb Hm).
Defined.

Lemma first_join_creates_room_example :
  let w := run init [hello "A"] in
  let res := step w (named "A" "r1" "Alice") in
  "r1" <> "" /\ "A" <> ""
  /\ room_at w "r1" = Some None
  /\ room_at res.1 "r1" = Some (Some (Room "" 0 false 1 "A" []))
  /\ ttl_at res.1 "r1" = None
  /\ binding res.1 "A" = Some "r1"
  /\ res.2 = [(ToRoom "r1", MUsers 1);
              (ToSocket "A", MRoomState None 0 false (Some "A") [])].
Proof.
  assert (H1 : "r1" <> "") by discriminate.
  assert (H2 : "A" <> "") by discriminate.
  split; [exact H1|]. split; [exact H2|]. split; [reflexivity|].
  exact (first_join_creates_room (B := int_builtins) (run init [hello "A"]) "A"
           "r1" (Some "Alice") 0 H1 H2 eq_refl).
Defined.

Lemma later_join_keeps_the_room_example :
  let w := run init [hello "A"; hello "B"; join "A" "r1";
                     load "A" "dQw4w9WgXcQ"] in
  let res := step w (join "B" "r1") in
  let r' := Room "dQw4w9WgXcQ" 0 false 2 "A" [] in
  reachable arrives w
  /\ room_at w "r1" = Some (Some (Room "dQw4w9WgXcQ" 0 false 1 "A" []))
  /\ 1 < 2 ^ 53
  /\ room_at res.1 "r1" = Some (Some r')
  /\ res.2 = [(ToRoom "r1", MUsers 2); (ToSocket "B", room_state r')].
Proof.
  set (w := run init [hello "A"; hello "B"; join "A" "r1";
                      load "A" "dQw4w9WgXcQ"]).
  assert (H1 : "r1" <> "") by discriminate.
  assert (Hr : room_at w "r1" = Some (Some (Room "dQw4w9WgXcQ" 0 false 1 "A" [])))
    by (vm_compute; reflexivity).
  assert (Hm : "A" <> "") by discriminate.
  assert (Hw : reachable arrives w)
    by (apply (run_reachable arrives); vm_compute; reflexivity).
  assert (Hc : 1 < 2 ^ 53) by reflexivity.
  split; [exact Hw|]. split; [exact Hr|]. split; [exact Hc|].
  exact (later_join_keeps_the_room w "B" "r1" None 0 _ Hw H1 Hr Hm Hc).
Defined.

Lemma ensureRoomExists_ensures_example :
  room_at init "r1" <> None
  /\ exists r w',
       ensureRoomExists (B := int_builtins) "r1" "A" init = (Some r, w', [])
       /\ room_at w' "r1" = Some (Some r)
       /\ (forall r0, room_at init "r1" = Some (Some r0) -> r = r0 /\ w' = init)
       /\ (room_at init "r1" = Some None ->
           r = Room "" 0 false 0 "A" []
           /\ ttl_at w' "r1" = Some 86400
           /\ forall roomId', roomId' <> "r1" ->
                              room_at w' roomId' = room_at init roomId').
Proof.
  assert (H : room_at init "r1" <> None) by discriminate.
  split; [exact H|].
  exact (ensureRoomExists_ensures (B := int_builtins) init "r1" "A" H).
Defined.

Lemma chat_carries_the_join_name_example :
  let w' := next (run init [hello "A"]) (named "A" "r1" "Alice") in
  "r1" <> "" /\ "hello" <> ""
  /\ step w' (Recv "A" (Chat (Some "hello")))
     = (w', [(ToRoom "r1", MChat "Alice" "hello")]).
Proof.
  assert (H1 : "r1" <> "") by discriminate.
  assert (H2 : "hello" <> "") by discriminate.
  split; [exact H1|]. split; [exact H2|].
  exact (chat_carries_the_join_name (B := int_builtins) (run init [hello "A"]) "A"
           "r1" (Some "Alice") 0 "hello" H1 H2).
Defined.

Lemma resync_shows_last_playback_example :
  let w := run init [hello "A"; hello "B"; join "A" "r1";
                     load "A" "dQw4w9WgXcQ"; join "B" "r1"] in
  let w' := next w (Recv "A" (ev_play 42)) in
  binding w "A" = Some "r1" /\ binding w "B" = Some "r1"
  /\ room_at w "r1" = Some (Some (Room "dQw4w9WgXcQ" 0 false 2 "A" []))
  /\ step w' (Recv "B" RequestSync)
     = (w', [(ToSocket "B",
              MRoomState (Some "dQw4w9WgXcQ") 42 true (Some "A") [])]).
Proof.
  set (w := run init [hello "A"; hello "B"; join "A" "r1";
                      load "A" "dQw4w9WgXcQ"; join "B" "r1"]).
  assert (Ha : binding w "A" = Some "r1") by reflexivity.
  assert (Hb : binding w "B" = Some "r1") by reflexivity.
  assert (Hr : room_at w "r1" = Some (Some (Room "dQw4w9WgXcQ" 0 false 2 "A" [])))
    by (vm_compute; reflexivity).
  split; [exact Ha|]. split; [exact Hb|]. split; [exact Hr|].
  exact (resync_shows_last_playback w "A" "B" "r1" _ (ev_play 42) _
           Ha Hb Hr eq_refl).
Defined.

Lemma last_playback_wins_example :
  let w := run init [hello "A"; hello "B"; join "A" "r1"; join "B" "r1"] in
  binding w "A" = binding w "B"
  /\ next (next w (Recv "A" (ev_seek 10))) (Recv "B" (ev_pause 20))
     = next w (Recv "B" (ev_pause 20)).
Proof.
  set (w := run init [hello "A"; hello "B"; join "A" "r1"; join "B" "r1"]).
  assert (Hb : binding w "A" = binding w "B") by reflexivity.
  split; [exact Hb|].
  exact (last_playback_wins w "A" "B" (ev_seek 10) (ev_pause 20) (Some 20)
           Hb (ex_intro _ (Some 10) (or_intror (or_intror eq_refl)))
           (or_intror eq_refl)).
Defined.

Lemma unbound_events_are_dropped_example :
  let w := run init [hello "A"] in
  binding w "A" = None
  /\ step w (Recv "A" (ev_play 3)) = (w, []).
Proof.
  split; [reflexivity|].
  exact (unbound_events_are_dropped (B := int_builtins) (run init [hello "A"]) "A"
           (ev_play 3) eq_refl).
Defined.

Definition stray : world :=
  World {[ ROOM_PREFIX ++ "r1" := Entry {[ "owner" := "nobody" ]} None ]} ∅ ∅ ∅.

Lemma getRoom_defaults_example :
  redis stray !! (ROOM_PREFIX ++ "r1")
  = Some (Entry {[ "owner" := "nobody" ]} None)
  /\ room_at stray "r1" = Some (Some (Room "" 0 false 0 "" [])).
Proof.
  assert (E : redis stray !! (ROOM_PREFIX ++ "r1")
              = Some (Entry {[ "owner" := "nobody" ]} None))
    by (vm_compute; reflexivity).
  split; [exact E|].
  refine (getRoom_defaults (B := int_builtins) stray "r1" _ None E _).
  intros f Hf.
  repeat (apply elem_of_cons in Hf as [->|Hf]; [reflexivity|]).
  by apply elem_of_nil in Hf.
Defined.

Lemma member_leaves_moderator_stays_example :
  let w := run init [hello "A"; hello "B"; join "A" "r1"; join "B" "r1"] in
  reachable arrives w
  /\ binding w "B" = Some "r1"
  /\ room_at w "r1" = Some (Some (Room "" 0 false 2 "A" []))
  /\ "A" <> "B"
  /\ 2 < 2 ^ 53
  /\ room_at (next w (bye "B")) "r1" = Some (Some (Room "" 0 false 1 "A" [])).
Proof.
  set (w := run init [hello "A"; hello "B"; join "A" "r1"; join "B" "r1"]).
  assert (Hb : binding w "B" = Some "r1") by reflexivity.
  assert (Hr : room_at w "r1" = Some (Some (Room "" 0 false 2 "A" [])))
    by (vm_compute; reflexivity).
  assert (N : "A" <> "B") by discriminate.
  assert (Hw : reachable arrives w)
    by (apply (run_reachable arrives); vm_compute; reflexivity).
  assert (Hc : 2 < 2 ^ 53) by reflexivity.
  split; [exact Hw|]. split; [exact Hb|]. split; [exact Hr|]. split; [exact N|].
  split; [exact Hc|].
  exact (member_leaves_moderator_stays w "B" "r1" _ Hw Hb Hr N Hc).
Defined.

End Examples.
